(** * The Weld demo notebook: a verified model

    The notebook [weld-demo.ipynb] defines a baseline routine over a NumPy
    [int32] array ([run_numpy_addition]), a small wrapper class
    ([HelloWeldVector]) that accumulates a Weld program as a string, and the
    same routine run through the wrapper ([run_numpy_addition_with_weld]).

    Python objects are mutable and shared, so the model threads an explicit
    store through every call: NumPy arrays and [WeldObject]s live in heaps
    indexed by identity, the class [HelloWeldVector] and its instances have
    attribute dictionaries, and every call of the runtime's [evaluate] is
    logged.  The Weld runtime is an external library: it is a parameter of the
    model ([Runtime]), and its documented semantics for the programs that the
    notebook generates is one instance of it ([weld_runtime]). *)

From Stdlib Require Import ZArith Lia List String Ascii DecimalString DecimalZ.
From stdpp Require Import base option gmap strings list.
Import ListNotations.

Local Open Scope string_scope.
Local Open Scope list_scope.
Local Open Scope Z_scope.

(** ** Machine integers

    NumPy [int32] elements and Weld [i32]/[i64] values are two's complement:
    arithmetic wraps around silently. *)

Definition wrap (w : Z) (x : Z) : Z :=
  (x + 2 ^ (w - 1)) mod 2 ^ w - 2 ^ (w - 1).

Definition wrap32 : Z -> Z := wrap 32.
Definition wrap64 : Z -> Z := wrap 64.

Definition in_int32 (x : Z) : Prop := - 2 ^ 31 <= x < 2 ^ 31.
Definition in_int32b (x : Z) : bool := (- 2 ^ 31 <=? x) && (x <? 2 ^ 31).

(** ** Python strings *)

(** [str(number)] for a Python integer: decimal digits, a leading minus sign
    for negative numbers. *)
Definition str (number : Z) : string :=
  NilZero.string_of_int (Z.to_int number).

Definition digit_index (c : ascii) : option nat :=
  let n := nat_of_ascii c in
  if (48 <=? n)%nat && (n <=? 57)%nat then Some (n - 48)%nat else None.

(** [template.format(args...)] for the replacement fields the notebook uses:
    [{0}] ... [{9}] are replaced by the positional argument, whose text is
    copied as it is (it is not scanned for fields again).  Any other use of a
    brace raises in Python; the model returns [None] there. *)
Fixpoint format (template : string) (args : list string) : option string :=
  match template with
  | EmptyString => Some EmptyString
  | String c rest =>
      if Ascii.eqb c "{" then
        match rest with
        | String d (String c' rest') =>
            if Ascii.eqb c' "}" then
              match digit_index d with
              | Some i =>
                  match args !! i, format rest' args with
                  | Some a, Some r => Some (a +:+ r)
                  | _, _ => None
                  end
              | None => None
              end
            else None
        | _ => None
        end
      else if Ascii.eqb c "}" then None
      else option_map (String c) (format rest args)
  end.

(** ** Python values and the store *)

Inductive Encoder := NumpyArrayEncoder.
Inductive Decoder := NumpyArrayDecoder | ScalarDecoder.
Inductive WeldType := WeldInt | WeldLong | WeldVec (elem : WeldType).

(** The two module-level objects of the cell that imports the encoders. *)
Definition _encoder : Encoder := NumpyArrayEncoder.
Definition _decoder : Decoder := NumpyArrayDecoder.

(** A Python value: objects are references into the store. *)
Inductive pyval :=
  | PNone
  | PInt (z : Z)
  | PArray (l : nat)            (* a NumPy ndarray, by identity *)
  | PFreshArray (data : list Z) (* an ndarray decoded from a Weld result *)
  | PWeld (l : nat)             (* a WeldObject, by identity *)
  | PInstance (i : nat)         (* an instance of HelloWeldVector *)
  | PClass.                     (* the class object HelloWeldVector *)

(** The fields of a [WeldObject] that the notebook and the runtime use.
    [context] maps the names the object handed out to the registered values. *)
Record WeldObject := mkWeldObject {
  encoder : Encoder;
  decoder : Decoder;
  weld_code : string;
  context : gmap string pyval
}.

Inductive exn :=
  | AttributeError (name : string)
  | TypeError (what : string)
  | ValueError (what : string)
  | WeldError (what : string).  (* raised inside the external runtime *)

(** An [int32] ndarray is the list of its elements. *)
Abbreviation ndarray := (list Z).

Record state := mkState {
  arrays : list ndarray;                  (* ndarrays, indexed by identity *)
  weldobjs : list WeldObject;             (* WeldObjects, indexed by identity *)
  class_dict : gmap string pyval;         (* data attributes of the class *)
  instances : list (gmap string pyval);   (* the __dict__ of each instance *)
  var_num : nat;                          (* values registered so far *)
  evaluated : list (string * Decoder * WeldType)
                                          (* every call of evaluate, oldest first *)
}.

Definition set_arrays (f : list ndarray -> list ndarray) (s : state) : state :=
  mkState (f (arrays s)) (weldobjs s) (class_dict s) (instances s) (var_num s)
          (evaluated s).
Definition set_weldobjs (f : list WeldObject -> list WeldObject) (s : state) : state :=
  mkState (arrays s) (f (weldobjs s)) (class_dict s) (instances s) (var_num s)
          (evaluated s).
Definition set_class_dict (f : gmap string pyval -> gmap string pyval) (s : state) : state :=
  mkState (arrays s) (weldobjs s) (f (class_dict s)) (instances s) (var_num s)
          (evaluated s).
Definition set_instances (f : list (gmap string pyval) -> list (gmap string pyval))
    (s : state) : state :=
  mkState (arrays s) (weldobjs s) (class_dict s) (f (instances s)) (var_num s)
          (evaluated s).
Definition set_var_num (f : nat -> nat) (s : state) : state :=
  mkState (arrays s) (weldobjs s) (class_dict s) (instances s) (f (var_num s))
          (evaluated s).
Definition log_evaluate (ev : string * Decoder * WeldType) (s : state) : state :=
  mkState (arrays s) (weldobjs s) (class_dict s) (instances s) (var_num s)
          (evaluated s ++ [ev]).

(** The interpreter state right after the class statement and the [setattr]
    cell: no object exists yet. *)
Definition initial_state : state := mkState [] [] ∅ [] 0 [].

(** ** The monad of Python code: state and exceptions

    A raised exception keeps the store as it was when it was raised: nothing
    is rolled back. *)

Inductive outcome (A : Type) :=
  | Ret (a : A)
  | Raise (e : exn).
Arguments Ret {A} a.
Arguments Raise {A} e.

Definition Py (A : Type) : Type := state -> outcome A * state.

#[global] Instance Py_ret : MRet Py := fun A a s => (Ret a, s).
#[global] Instance Py_bind : MBind Py := fun A B f m s =>
  match m s with
  | (Ret a, s') => f a s'
  | (Raise e, s') => (Raise e, s')
  end.
#[global] Instance Py_throw : MThrow exn Py := fun A e s => (Raise e, s).

Definition get_state : Py state := fun s => (Ret s, s).
Definition modify (f : state -> state) : Py unit := fun s => (Ret tt, f s).

(** [for x in xs: acc = body(acc, x)] *)
Fixpoint for_each {A B : Type} (xs : list B) (body : A -> B -> Py A) (acc : A) : Py A :=
  match xs with
  | [] => mret acc
  | x :: xs' => acc' ← body acc x; for_each xs' body acc'
  end.

(** [xrange(n)] *)
Definition xrange (n : Z) : list Z := map Z.of_nat (seq 0 (Z.to_nat n)).

(** ** Attribute access *)

(** Attribute lookup for [o.name]: the dictionary of the instance first, then
    the class. *)
Definition lookup_attr (s : state) (o : pyval) (name : string) : option pyval :=
  match o with
  | PInstance i =>
      match instances s !! i with
      | Some d =>
          match d !! name with
          | Some v => Some v
          | None => class_dict s !! name
          end
      | None => None
      end
  | PClass => class_dict s !! name
  | _ => None
  end.

Definition raise_if_none {A : Type} (e : exn) (o : option A) : Py A :=
  match o with
  | Some a => mret a
  | None => mthrow e
  end.

Definition getattr (o : pyval) (name : string) : Py pyval :=
  s ← get_state;
  raise_if_none (AttributeError name) (lookup_attr s o name).

(** [o.name = v]: always in the dictionary of [o] itself. *)
Definition setattr (o : pyval) (name : string) (v : pyval) : Py unit :=
  s ← get_state;
  match o with
  | PInstance i =>
      match instances s !! i with
      | Some d => modify (set_instances (fun l => <[i := <[name := v]> d]> l))
      | None => mthrow (AttributeError name)
      end
  | PClass => modify (set_class_dict (fun d => <[name := v]> d))
  | _ => mthrow (AttributeError name)
  end.

(** Field access on a WeldObject reference. *)
Definition deref_weld (w : pyval) (field : string) : Py WeldObject :=
  s ← get_state;
  match w with
  | PWeld l =>
      match weldobjs s !! l with
      | Some o => mret o
      | None => mthrow (AttributeError field)
      end
  | _ => mthrow (AttributeError field)
  end.

Definition store_weld (w : pyval) (field : string) (f : WeldObject -> WeldObject) : Py unit :=
  s ← get_state;
  match w with
  | PWeld l =>
      match weldobjs s !! l with
      | Some o => modify (set_weldobjs (fun h => <[l := f o]> h))
      | None => mthrow (AttributeError field)
      end
  | _ => mthrow (AttributeError field)
  end.

Definition get_weld_code (w : pyval) : Py string :=
  o ← deref_weld w "weld_code"; mret (weld_code o).

Definition with_code (code : string) (o : WeldObject) : WeldObject :=
  mkWeldObject (encoder o) (decoder o) code (context o).

Definition with_decoder (d : Decoder) (o : WeldObject) : WeldObject :=
  mkWeldObject (encoder o) d (weld_code o) (context o).

(** [w.weld_code = code] and [w.decoder = d] *)
Definition set_weld_code (w : pyval) (code : string) : Py unit :=
  store_weld w "weld_code" (with_code code).

Definition set_decoder (w : pyval) (d : Decoder) : Py unit :=
  store_weld w "decoder" (with_decoder d).

(** ** The external libraries *)

(** The Weld runtime as the notebook uses it.  [rt_update n obj value tys]
    registers [value] with [obj] ([n] values were registered before) and gives
    the name it assigned together with the updated object; [rt_evaluate obj
    arrays restype] compiles and runs [weld_code obj] over the registered
    arrays and decodes the result.  Either may raise.  The runtime reads the
    arrays it is given and never writes to them: Weld values are immutable. *)
Record Runtime := mkRuntime {
  rt_update : nat -> WeldObject -> pyval -> WeldType -> exn + (string * WeldObject);
  rt_evaluate : WeldObject -> list ndarray -> WeldType -> exn + pyval
}.

(** [a += i] on an [int32] ndarray: every element is updated in place, in
    [int32] arithmetic; the result of the statement is the array itself. *)
Definition np_iadd (a : pyval) (i : Z) : Py pyval :=
  s ← get_state;
  match a with
  | PArray l =>
      match arrays s !! l with
      | Some data =>
          modify (set_arrays (fun h => <[l := map (fun x => wrap32 (x + i)) data]> h));;
          mret a
      | None => mthrow (TypeError "+=")
      end
  | _ => mthrow (TypeError "+=")
  end.

(** [a.sum()] on an [int32] ndarray accumulates in [int64]. *)
Definition np_sum (a : pyval) : Py pyval :=
  s ← get_state;
  match a with
  | PArray l =>
      match arrays s !! l with
      | Some data => mret (PInt (fold_left (fun acc x => wrap64 (acc + x)) data 0))
      | None => mthrow (AttributeError "sum")
      end
  | _ => mthrow (AttributeError "sum")
  end.

(** [np.zeros((n), dtype='int32')] *)
Definition np_zeros (n : nat) : Py pyval :=
  s ← get_state;
  modify (set_arrays (fun h => h ++ [repeat 0 n]));;
  mret (PArray (length (arrays s))).

Section Notebook.

Variable rt : Runtime.

(** [WeldObject(encoder, decoder)]: a new object with an empty program. *)
Definition WeldObject_new (enc : Encoder) (dec : Decoder) : Py pyval :=
  s ← get_state;
  modify (set_weldobjs (fun h => h ++ [mkWeldObject enc dec "" ∅]));;
  mret (PWeld (length (weldobjs s))).

(** [w.update(value, tys)] *)
Definition update (w : pyval) (value : pyval) (tys : WeldType) : Py string :=
  o ← deref_weld w "update";
  s ← get_state;
  match rt_update rt (var_num s) o value tys with
  | inl e => mthrow e
  | inr (name, o') =>
      store_weld w "update" (fun _ => o');;
      modify (set_var_num S);;
      mret name
  end.

(** [w.evaluate(restype, verbose=False)] *)
Definition evaluate (w : pyval) (restype : WeldType) : Py pyval :=
  o ← deref_weld w "evaluate";
  s ← get_state;
  modify (log_evaluate (weld_code o, decoder o, restype));;
  match rt_evaluate rt o (arrays s) restype with
  | inl e => mthrow e
  | inr v => mret v
  end.

(** ** The notebook *)

Definition SIZE : Z := Z.shiftl 2 28.
Definition ITERATIONS : Z := 40.

(** How a function was installed on the class, and the object that a call
    through an instance binds to its first parameter. *)
Inductive descriptor := plain_function | classmethod.

Definition bound_self (d : descriptor) (inst : pyval) : pyval :=
  match d with
  | plain_function => inst
  | classmethod => PClass
  end.

(** The [setattr] cell:
    <<
    setattr(HelloWeldVector, '__init__', classmethod(__init__))
    setattr(HelloWeldVector, 'add', add)
    setattr(HelloWeldVector, '__iadd__', __iadd__)
    setattr(HelloWeldVector, 'vector_sum', vector_sum)
    >> *)
Definition HelloWeldVector_members : list (string * descriptor) :=
  [ ("__init__", classmethod);
    ("add", plain_function);
    ("__iadd__", plain_function);
    ("vector_sum", plain_function) ].

Definition member (name : string) : option descriptor :=
  snd <$> List.find (fun m => String.eqb (fst m) name) HelloWeldVector_members.

(** [inst.name(...)]: look the method up on the class and run its body with
    the first parameter bound as the descriptor says. *)
Definition call_method {A : Type} (inst : pyval) (name : string)
    (body : pyval -> Py A) : Py A :=
  match member name with
  | Some d => body (bound_self d inst)
  | None => mthrow (AttributeError name)
  end.

(** <<
    def __init__(self, vector):
        self.vector = vector
        self.weldobj = WeldObject(_encoder, _decoder)
        name = self.weldobj.update(vector, WeldVec(WeldInt()))
        self.weldobj.weld_code = name
    >> *)
Definition __init__ (self : pyval) (vector : pyval) : Py unit :=
  setattr self "vector" vector;;
  w ← WeldObject_new _encoder _decoder;
  setattr self "weldobj" w;;
  w ← getattr self "weldobj";
  name ← update w vector (WeldVec WeldInt);
  w ← getattr self "weldobj";
  set_weld_code w name.

(** [HelloWeldVector(vector)]: a new instance with an empty dictionary, then
    [__init__] called through it. *)
Definition HelloWeldVector (vector : pyval) : Py pyval :=
  s ← get_state;
  modify (set_instances (fun l => l ++ [∅]));;
  let inst := PInstance (length (instances s)) in
  call_method inst "__init__" (fun self => __init__ self vector);;
  mret inst.

(** <<
    def add(self, number):
        template = "map({0}, |e| e + {1})"
        self.weldobj.weld_code = template.format(
            self.weldobj.weld_code, str(number))
        return self
    >>
    The right-hand side is evaluated before the target [self.weldobj]. *)
Definition add (self : pyval) (number : Z) : Py pyval :=
  let template := "map({0}, |e| e + {1})" in
  w ← getattr self "weldobj";
  code ← get_weld_code w;
  code' ← raise_if_none (ValueError "format") (format template [code; str number]);
  w ← getattr self "weldobj";
  set_weld_code w code';;
  mret self.

(** <<
    def __iadd__(self, other):
        return self.add(other)
    >> *)
Definition __iadd__ (self : pyval) (other : Z) : Py pyval :=
  call_method self "add" (fun self => add self other).

(** <<
    def vector_sum(self):
        template = "result(for({0}, merger[i64,+], |b,i,e| merge(b, i64(e))))"
        prev_code = self.weldobj.weld_code
        self.weldobj.weld_code = template.format(self.weldobj.weld_code)
        self.weldobj.decoder = ScalarDecoder()
        result = self.weldobj.evaluate(WeldLong(), verbose=False)
        self.weldobj.decoder = _decoder
        self.weldobj.weld_code = prev_code
        return result
    >>
    Nothing is restored when [evaluate] raises. *)
Definition vector_sum (self : pyval) : Py pyval :=
  let template := "result(for({0}, merger[i64,+], |b,i,e| merge(b, i64(e))))" in
  w ← getattr self "weldobj";
  prev_code ← get_weld_code w;
  w ← getattr self "weldobj";
  code ← get_weld_code w;
  code' ← raise_if_none (ValueError "format") (format template [code]);
  w ← getattr self "weldobj";
  set_weld_code w code';;
  w ← getattr self "weldobj";
  set_decoder w ScalarDecoder;;
  w ← getattr self "weldobj";
  result ← evaluate w WeldLong;
  w ← getattr self "weldobj";
  set_decoder w _decoder;;
  w ← getattr self "weldobj";
  set_weld_code w prev_code;;
  mret result.

(** The statement [a += i]: NumPy's in-place addition on an ndarray, the
    class's [__iadd__] on a [HelloWeldVector]; [a] is rebound to the result. *)
Definition iadd (a : pyval) (i : Z) : Py pyval :=
  match a with
  | PArray _ => np_iadd a i
  | PInstance _ => call_method a "__iadd__" (fun self => __iadd__ self i)
  | _ => mthrow (TypeError "+=")
  end.

(** <<
    def run_numpy_addition(a):
        for i in xrange(ITERATIONS):
            a += i
        return a.sum()
    >> *)
Definition run_numpy_addition (a : pyval) : Py pyval :=
  a ← for_each (xrange ITERATIONS) iadd a;
  np_sum a.

(** <<
    def run_numpy_addition_with_weld(a):
        a = HelloWeldVector(a)
        for i in xrange(ITERATIONS):
            a += i
        return a.vector_sum()
    >> *)
Definition run_numpy_addition_with_weld (a : pyval) : Py pyval :=
  a ← HelloWeldVector a;
  a ← for_each (xrange ITERATIONS) iadd a;
  call_method a "vector_sum" vector_sum.

(** [compare_against_numpy()], without the timing and the printing: the two
    results. *)
Definition compare_against_numpy : Py (pyval * pyval) :=
  a ← np_zeros (Z.to_nat SIZE);
  result_numpy ← run_numpy_addition a;
  a ← np_zeros (Z.to_nat SIZE);
  result_weld ← run_numpy_addition_with_weld a;
  mret (result_numpy, result_weld).

End Notebook.

(** ** The documented semantics of the generated Weld programs

    The programs the notebook hands to the runtime are built from a registered
    vector name, [map(v, |e| e + n)], and
    [result(for(v, merger[i64,+], |b,i,e| merge(b, i64(e))))].  This module
    gives the runtime's reading of that fragment of the Weld language: the
    text is split into tokens, parsed, and evaluated over the registered
    [int32] arrays.  An integer literal without suffix is an [i32]; [+] on two
    [i32] is an [i32] addition and wraps around; [i64(e)] widens; the merger
    accumulates in [i64]. *)
Module Weld.

Inductive token :=
  | TIdent (x : string)
  | TNum (n : Z)
  | TLParen | TRParen | TLBracket | TRBracket
  | TComma | TBar | TPlus | TMinus.

Definition is_word (c : ascii) : bool :=
  let n := nat_of_ascii c in
  ((48 <=? n) && (n <=? 57) || (65 <=? n) && (n <=? 90)
   || (97 <=? n) && (n <=? 122) || (n =? 95))%nat.

Definition is_digit (c : ascii) : bool :=
  let n := nat_of_ascii c in ((48 <=? n) && (n <=? 57))%nat.

Definition punct (c : ascii) : option (list token) :=
  if Ascii.eqb c " " then Some []
  else if Ascii.eqb c "(" then Some [TLParen]
  else if Ascii.eqb c ")" then Some [TRParen]
  else if Ascii.eqb c "[" then Some [TLBracket]
  else if Ascii.eqb c "]" then Some [TRBracket]
  else if Ascii.eqb c "," then Some [TComma]
  else if Ascii.eqb c "|" then Some [TBar]
  else if Ascii.eqb c "+" then Some [TPlus]
  else if Ascii.eqb c "-" then Some [TMinus]
  else None.

(** The token of a finished word: a number when it starts with a digit (then
    all of it must be digits), an identifier otherwise. *)
Definition flush (word : string) : option (list token) :=
  match word with
  | EmptyString => Some []
  | String c _ =>
      if is_digit c then
        match NilZero.uint_of_string word with
        | Some d => Some [TNum (Z.of_uint d)]
        | None => None
        end
      else Some [TIdent word]
  end.

Fixpoint lex (word : string) (s : string) : option (list token) :=
  match s with
  | EmptyString => flush word
  | String c rest =>
      if is_word c then lex (word +:+ String c EmptyString) rest
      else
        match flush word, punct c, lex EmptyString rest with
        | Some w, Some p, Some ts => Some (w ++ p ++ ts)
        | _, _, _ => None
        end
  end.

Inductive expr :=
  | Ident (x : string)
  | I32Literal (n : Z)
  | Add (a b : expr)
  | Negate (a : expr)
  | CastI64 (a : expr)
  | NewMerger                                  (* merger[i64,+] *)
  | Map (v : expr) (x : string) (body : expr)  (* map(v, |x| body) *)
  | For (v builder : expr) (b i e : string) (body : expr)
                                               (* for(v, builder, |b,i,e| body) *)
  | Merge (b v : expr)
  | Result (b : expr).

Definition expect (t : token) (ts : list token) : option (list token) :=
  match ts, t with
  | TLParen :: r, TLParen | TRParen :: r, TRParen
  | TLBracket :: r, TLBracket | TRBracket :: r, TRBracket
  | TComma :: r, TComma | TBar :: r, TBar
  | TPlus :: r, TPlus | TMinus :: r, TMinus => Some r
  | _, _ => None
  end.

Definition expect_ident (ts : list token) : option (string * list token) :=
  match ts with
  | TIdent x :: r => Some (x, r)
  | _ => None
  end.

(** Recursive descent; [fuel] bounds the nesting depth. *)
Fixpoint parse_operand (fuel : nat) (ts : list token) : option (expr * list token) :=
  match fuel with
  | O => None
  | S fuel =>
      let parse_expr ts :=
        '(a, r) ← parse_operand fuel ts; parse_sum fuel a r in
      match ts with
      | TNum n :: r => if in_int32b n then Some (I32Literal n, r) else None
      | TMinus :: r => '(a, r) ← parse_operand fuel r; Some (Negate a, r)
      | TIdent x :: TLParen :: r =>
          if String.eqb x "map" then
            '(v, r) ← parse_expr r;
            r ← expect TComma r; r ← expect TBar r;
            '(x, r) ← expect_ident r;
            r ← expect TBar r;
            '(body, r) ← parse_expr r;
            r ← expect TRParen r;
            Some (Map v x body, r)
          else if String.eqb x "for" then
            '(v, r) ← parse_expr r;
            r ← expect TComma r;
            '(builder, r) ← parse_expr r;
            r ← expect TComma r; r ← expect TBar r;
            '(b, r) ← expect_ident r;
            r ← expect TComma r;
            '(i, r) ← expect_ident r;
            r ← expect TComma r;
            '(e, r) ← expect_ident r;
            r ← expect TBar r;
            '(body, r) ← parse_expr r;
            r ← expect TRParen r;
            Some (For v builder b i e body, r)
          else if String.eqb x "merge" then
            '(b, r) ← parse_expr r;
            r ← expect TComma r;
            '(v, r) ← parse_expr r;
            r ← expect TRParen r;
            Some (Merge b v, r)
          else if String.eqb x "result" then
            '(b, r) ← parse_expr r;
            r ← expect TRParen r;
            Some (Result b, r)
          else if String.eqb x "i64" then
            '(a, r) ← parse_expr r;
            r ← expect TRParen r;
            Some (CastI64 a, r)
          else None
      | TIdent x :: TLBracket :: r =>
          if String.eqb x "merger" then
            '(ty, r) ← expect_ident r;
            r ← expect TComma r; r ← expect TPlus r; r ← expect TRBracket r;
            if String.eqb ty "i64" then Some (NewMerger, r) else None
          else None
      | TIdent x :: r => Some (Ident x, r)
      | _ => None
      end
  end
with parse_sum (fuel : nat) (lhs : expr) (ts : list token) : option (expr * list token) :=
  match fuel with
  | O => None
  | S fuel =>
      match ts with
      | TPlus :: r =>
          '(rhs, r) ← parse_operand fuel r; parse_sum fuel (Add lhs rhs) r
      | _ => Some (lhs, ts)
      end
  end.

Definition parse_expr (fuel : nat) (ts : list token) : option (expr * list token) :=
  '(a, r) ← parse_operand fuel ts; parse_sum fuel a r.

Definition parse (code : string) : option expr :=
  ts ← lex EmptyString code;
  match parse_expr (S (length ts)) ts with
  | Some (e, []) => Some e
  | _ => None
  end.

Inductive value :=
  | I32 (z : Z)
  | I64 (z : Z)
  | VecI32 (l : list Z)
  | MergerI64 (acc : Z).

Definition env := string -> option value.

Definition bind (x : string) (v : value) (rho : env) : env :=
  fun y => if String.eqb y x then Some v else rho y.

Fixpoint map_opt {A B : Type} (f : A -> option B) (l : list A) : option (list B) :=
  match l with
  | [] => Some []
  | x :: l' =>
      match f x, map_opt f l' with
      | Some y, Some ys => Some (y :: ys)
      | _, _ => None
      end
  end.

(** One sequential pass of a loop body over the elements, with their index. *)
Fixpoint iterate (step : Z -> Z -> Z -> option Z) (idx : Z) (l : list Z) (acc : Z)
    : option Z :=
  match l with
  | [] => Some acc
  | x :: l' =>
      match step acc idx x with
      | Some acc' => iterate step (idx + 1) l' acc'
      | None => None
      end
  end.

Fixpoint eval (rho : env) (e : expr) : option value :=
  match e with
  | Ident x => rho x
  | I32Literal n => Some (I32 n)
  | Add a b =>
      match eval rho a, eval rho b with
      | Some (I32 x), Some (I32 y) => Some (I32 (wrap32 (x + y)))
      | Some (I64 x), Some (I64 y) => Some (I64 (wrap64 (x + y)))
      | _, _ => None
      end
  | Negate a =>
      match eval rho a with
      | Some (I32 x) => Some (I32 (wrap32 (- x)))
      | Some (I64 x) => Some (I64 (wrap64 (- x)))
      | _ => None
      end
  | CastI64 a =>
      match eval rho a with
      | Some (I32 x) | Some (I64 x) => Some (I64 x)
      | _ => None
      end
  | NewMerger => Some (MergerI64 0)
  | Map v x body =>
      match eval rho v with
      | Some (VecI32 l) =>
          VecI32 <$> map_opt (fun el =>
            match eval (bind x (I32 el) rho) body with
            | Some (I32 y) => Some y
            | _ => None
            end) l
      | _ => None
      end
  | For v builder b i e body =>
      match eval rho v, eval rho builder with
      | Some (VecI32 l), Some (MergerI64 acc) =>
          MergerI64 <$> iterate (fun acc idx el =>
            match eval (bind e (I32 el) (bind i (I64 idx) (bind b (MergerI64 acc) rho)))
                       body with
            | Some (MergerI64 acc') => Some acc'
            | _ => None
            end) 0 l acc
      | _, _ => None
      end
  | Merge b v =>
      match eval rho b, eval rho v with
      | Some (MergerI64 acc), Some (I64 x) => Some (MergerI64 (wrap64 (acc + x)))
      | _, _ => None
      end
  | Result b =>
      match eval rho b with
      | Some (MergerI64 acc) => Some (I64 acc)
      | _ => None
      end
  end.

(** [NumpyArrayEncoder]: an [int32] ndarray is passed as a [vec[i32]]. *)
Definition encode (arrays : list ndarray) (v : pyval) : option value :=
  match v with
  | PArray l => VecI32 <$> arrays !! l
  | _ => None
  end.

(** The result decoders, for the result type asked for. *)
Definition decode (d : Decoder) (restype : WeldType) (v : value) : option pyval :=
  match d, restype, v with
  | ScalarDecoder, WeldLong, I64 z => Some (PInt z)
  | ScalarDecoder, WeldInt, I32 z => Some (PInt z)
  | NumpyArrayDecoder, WeldVec WeldInt, VecI32 l => Some (PFreshArray l)
  | _, _, _ => None
  end.

(** Names handed out for registered values: [_inp0], [_inp1], ... *)
Definition input_name (n : nat) : string := "_inp" +:+ str (Z.of_nat n).

Definition update (n : nat) (o : WeldObject) (value : pyval) (tys : WeldType)
    : exn + (string * WeldObject) :=
  inr (input_name n,
       mkWeldObject (encoder o) (decoder o) (weld_code o)
                    (<[input_name n := value]> (context o))).

Definition evaluate (o : WeldObject) (arrays : list ndarray) (restype : WeldType)
    : exn + pyval :=
  match parse (weld_code o) with
  | None => inl (WeldError "syntax error")
  | Some e =>
      match eval (fun x => context o !! x ≫= encode arrays) e with
      | None => inl (WeldError "type error")
      | Some v =>
          match decode (decoder o) restype v with
          | Some r => inr r
          | None => inl (WeldError "result type mismatch")
          end
      end
  end.

End Weld.

Definition weld_runtime : Runtime := mkRuntime Weld.update Weld.evaluate.

(** ** Observations and reference definitions used in the statements *)

(** [v.weldobj.weld_code] and [v.weldobj.decoder], read without side effect. *)
Definition weldobj_of (s : state) (v : pyval) : option WeldObject :=
  match lookup_attr s v "weldobj" with
  | Some (PWeld l) => weldobjs s !! l
  | _ => None
  end.

Definition code_of (s : state) (v : pyval) : option string :=
  weld_code <$> weldobj_of s v.

Definition decoder_of (s : state) (v : pyval) : option Decoder :=
  decoder <$> weldobj_of s v.

(** The wrapper [v] reaches the WeldObject [o], stored at [w]. *)
Definition has_obj (s : state) (v : pyval) (w : nat) (o : WeldObject) : Prop :=
  lookup_attr s v "weldobj" = Some (PWeld w) /\ weldobjs s !! w = Some o.

(** The store with the WeldObject at [w] replaced. *)
Definition put_obj (w : nat) (o : WeldObject) (s : state) : state :=
  set_weldobjs (fun h => <[w := o]> h) s.

(** What [WeldObject(_encoder, _decoder)] creates. *)
Definition fresh_obj : WeldObject := mkWeldObject _encoder _decoder "" ∅.

(** The store after [HelloWeldVector(vector)] has run on [s], with [o] the
    new WeldObject and [n] the count of registered values. *)
Definition constructed (s : state) (vector : pyval) (o : WeldObject) (n : nat) : state :=
  mkState (arrays s) (weldobjs s ++ [o])
          (<["weldobj" := PWeld (length (weldobjs s))]>
             (<["vector" := vector]> (class_dict s)))
          (instances s ++ [∅]) n (evaluated s).

(** The text of one [map] layer and of the summing loop. *)
Definition map_layer (code : string) (number : Z) : string :=
  "map(" +:+ code +:+ ", |e| e + " +:+ str number +:+ ")".

Definition sum_program (code : string) : string :=
  "result(for(" +:+ code +:+ ", merger[i64,+], |b,i,e| merge(b, i64(e))))".

(** The object as the runtime sees it during [vector_sum]. *)
Definition running (o : WeldObject) : WeldObject :=
  with_decoder ScalarDecoder (with_code (sum_program (weld_code o)) o).

(** [map(...map(map(N, |e| e + n1), |e| e + n2)..., |e| e + nk)] *)
Definition nested (N : string) (ns : list Z) : string :=
  fold_left map_layer ns N.

Definition sumZ (l : list Z) : Z := fold_right Z.add 0 l.

(** Adding the numbers of [ns] one after the other, in [int32]. *)
Definition add_all32 (ns : list Z) (x : Z) : Z :=
  fold_left (fun y i => wrap32 (y + i)) ns x.

(** Summing in [int64]. *)
Definition sum64 (l : list Z) : Z :=
  fold_left (fun acc x => wrap64 (acc + x)) l 0.

(** A method call on a wrapper ([call_iadd n] is the statement [v += n]), and
    a sequence of them run one after the other. *)
Inductive call :=
  | call_add (n : Z)
  | call_iadd (n : Z)
  | call_vector_sum.

Definition run_call (rt : Runtime) (v : pyval) (c : call) : Py pyval :=
  match c with
  | call_add n => call_method v "add" (fun self => add self n)
  | call_iadd n => call_method v "__iadd__" (fun self => __iadd__ self n)
  | call_vector_sum => call_method v "vector_sum" (vector_sum rt)
  end.

Definition run_calls (rt : Runtime) (v : pyval) (cs : list call) : Py unit :=
  for_each cs (fun _ c => run_call rt v c;; mret tt) tt.

(** [m] leaves the component [g] of the store as it found it, whatever its
    outcome. *)
Definition preserves {A B : Type} (g : state -> B) (m : Py A) : Prop :=
  forall s, g (snd (m s)) = g s.

(** [m] logs at most [k] evaluations, after those already logged. *)
Definition logs_at_most {A : Type} (k : nat) (m : Py A) : Prop :=
  forall s, exists evs,
    evaluated (snd (m s)) = evaluated s ++ evs /\ (length evs <= k)%nat.

Fixpoint count_vector_sum (cs : list call) : nat :=
  match cs with
  | [] => 0
  | call_vector_sum :: cs' => S (count_vector_sum cs')
  | _ :: cs' => count_vector_sum cs'
  end.

(** The initial store with one array in it, and the wrapper built over it by
    the documented runtime: the concrete inputs of the examples below. *)
Definition example_store : state := set_arrays (fun _ => [[1; 2; 3]]) initial_state.

(** The store after a wrapper was built over that array, and the WeldObject
    the wrapper then holds. *)
Definition example_wrapped : state :=
  snd (HelloWeldVector weld_runtime (PArray 0) example_store).

Definition example_obj : WeldObject :=
  mkWeldObject _encoder _decoder "_inp0" (<["_inp0" := PArray 0]> ∅).

(** A runtime that registers values as documented but whose [evaluate]
    raises. *)
Definition broken_runtime (e : exn) : Runtime :=
  mkRuntime Weld.update (fun _ _ _ => inl e).

Fixpoint all_chars (p : ascii -> bool) (s : string) : bool :=
  match s with
  | EmptyString => true
  | String c s' => p c && all_chars p s'
  end.

(** A name the lexer reads back as one identifier. *)
Definition valid_name (N : string) : bool :=
  match N with
  | EmptyString => false
  | String c _ => negb (Weld.is_digit c) && all_chars Weld.is_word N
  end.

(** The text after a word ends the word. *)
Definition starts_delim (rest : string) : Prop :=
  match rest with
  | EmptyString => True
  | String c _ => Weld.is_word c = false
  end.

Definition map_layer_tokens (ts : list Weld.token) (n : Z) : list Weld.token :=
  [Weld.TIdent "map"; Weld.TLParen] ++ ts
  ++ [Weld.TComma; Weld.TBar; Weld.TIdent "e"; Weld.TBar;
      Weld.TIdent "e"; Weld.TPlus; Weld.TNum n; Weld.TRParen].

Definition nested_tokens (N : string) (ns : list Z) : list Weld.token :=
  fold_left map_layer_tokens ns [Weld.TIdent N].

Definition map_layer_expr (e : Weld.expr) (n : Z) : Weld.expr :=
  Weld.Map e "e" (Weld.Add (Weld.Ident "e") (Weld.I32Literal n)).

Definition nested_expr (N : string) (ns : list Z) : Weld.expr :=
  fold_left map_layer_expr ns (Weld.Ident N).

Definition sum_tokens (ts : list Weld.token) : list Weld.token :=
  [Weld.TIdent "result"; Weld.TLParen; Weld.TIdent "for"; Weld.TLParen] ++ ts
  ++ [Weld.TComma; Weld.TIdent "merger"; Weld.TLBracket; Weld.TIdent "i64";
      Weld.TComma; Weld.TPlus; Weld.TRBracket; Weld.TComma; Weld.TBar;
      Weld.TIdent "b"; Weld.TComma; Weld.TIdent "i"; Weld.TComma;
      Weld.TIdent "e"; Weld.TBar; Weld.TIdent "merge"; Weld.TLParen;
      Weld.TIdent "b"; Weld.TComma; Weld.TIdent "i64"; Weld.TLParen;
      Weld.TIdent "e"; Weld.TRParen; Weld.TRParen; Weld.TRParen; Weld.TRParen].

Definition sum_expr (v : Weld.expr) : Weld.expr :=
  Weld.Result (Weld.For v Weld.NewMerger "b" "i" "e"
    (Weld.Merge (Weld.Ident "b") (Weld.CastI64 (Weld.Ident "e")))).

(** The token after an operand does not continue it. *)
Definition ends_operand (rest : list Weld.token) : Prop :=
  match rest with
  | Weld.TPlus :: _ | Weld.TLParen :: _ | Weld.TLBracket :: _ => False
  | _ => True
  end.

(** A program text [code] that lexes to [ts], whatever follows it. *)
Definition lexes_to (code : string) (ts : list Weld.token) : Prop :=
  forall rest rts,
    starts_delim rest -> Weld.lex "" rest = Some rts ->
    Weld.lex "" (code +:+ rest) = Some (ts ++ rts).

(** The tokens [ts] parse to [e] with nesting depth at most [d], whatever
    follows them. *)
Definition parses_to (d : nat) (ts : list Weld.token) (e : Weld.expr) : Prop :=
  forall fuel rest,
    (d <= fuel)%nat -> ends_operand rest ->
    Weld.parse_expr fuel (ts ++ rest) = Some (e, rest).

(** ** The data-cleaning cell over pandas

    A frame maps column names to columns.  The column [Incident Zip] is read
    with [dtype=str]: each of its entries is a string or NaN ([None]). *)

Abbreviation column := (list (option string)).
Abbreviation DataFrame := (gmap string (list (option string))).

Inductive pandas_exn := KeyError (key : string).

(** Code over one frame that it may update in place. *)
Definition Df (A : Type) : Type := DataFrame -> (pandas_exn + A) * DataFrame.

#[global] Instance Df_ret : MRet Df := fun A a df => (inr a, df).
#[global] Instance Df_bind : MBind Df := fun A B f m df =>
  match m df with
  | (inr a, df') => f a df'
  | (inl e, df') => (inl e, df')
  end.

(** [requests[key]] *)
Definition getitem (key : string) : Df column := fun df =>
  match df !! key with
  | Some col => (inr col, df)
  | None => (inl (KeyError key), df)
  end.

(** [requests[key] = col] *)
Definition setitem (key : string) (col : column) : Df unit := fun df =>
  (inr tt, <[key := col]> df).

(** [col.str.slice(start, stop)]: NaN stays NaN. *)
Definition str_slice (start stop : nat) (col : column) : column :=
  map (fun e => String.substring start (stop - start) <$> e) col.

(** [col == v], entry by entry: NaN equals no string. *)
Definition eq_scalar (col : column) (v : string) : list bool :=
  map (fun e => match e with Some s => String.eqb s v | None => false end) col.

(** [col[mask] = v] *)
Definition mask_set (col : column) (mask : list bool) (v : option string) : column :=
  zip_with (fun e (m : bool) => if m then v else e) col mask.

(** [col.unique()]: the values in order of first appearance, NaN at most
    once. *)
Fixpoint unique_from (seen : column) (col : column) : column :=
  match col with
  | [] => []
  | e :: col' =>
      if decide (e ∈ seen) then unique_from seen col'
      else e :: unique_from (e :: seen) col'
  end.

Definition unique (col : column) : column := unique_from [] col.

(** <<
    def run_data_cleaning_pandas(requests):
        requests['Incident Zip'] = requests['Incident Zip'].str.slice(0, 5)
        zero_zips = requests['Incident Zip'] == '00000'
        requests['Incident Zip'][zero_zips] = np.nan
        result = requests['Incident Zip'].unique()
    >>
    without the timing and the printing; the value is the [result] it
    prints.  The masked assignment writes into the column of the frame. *)
Definition run_data_cleaning_pandas : Df column :=
  col ← getitem "Incident Zip";
  setitem "Incident Zip" (str_slice 0 5 col);;
  col ← getitem "Incident Zip";
  let zero_zips := eq_scalar col "00000" in
  col ← getitem "Incident Zip";
  setitem "Incident Zip" (mask_set col zero_zips None);;
  col ← getitem "Incident Zip";
  mret (unique col).

(** One entry after the cleaning: the reference the statements compare with. *)
Definition cleaned (e : option string) : option string :=
  match e with
  | None => None
  | Some s =>
      if String.eqb (String.substring 0 5 s) "00000" then None
      else Some (String.substring 0 5 s)
  end.

(** A small frame for the examples. *)
Definition example_frame : DataFrame :=
  <["Incident Zip" := [Some "10027-1234"; None; Some "00000"; Some "11432";
                       Some "00000-0000"; Some "10027"; Some "083"]]>
    (<["City" := [Some "NEW YORK"; None; None; Some "JAMAICA"; None; None; None]]> ∅).

(** ** Sessions *)

(** What a notebook cell can do with the definitions above. *)
Inductive command :=
  | do_construct (vector : pyval)      (* HelloWeldVector(vector) *)
  | do_call (i : nat) (c : call)       (* a method call on the i-th wrapper *)
  | do_zeros (n : nat)                 (* np.zeros((n), dtype='int32') *)
  | do_baseline (a : pyval)            (* run_numpy_addition(a) *)
  | do_with_weld (a : pyval).          (* run_numpy_addition_with_weld(a) *)

(** The store a cell leaves; an exception ends the cell, not the session. *)
Definition exec (rt : Runtime) (c : command) (s : state) : state :=
  match c with
  | do_construct vector => snd (HelloWeldVector rt vector s)
  | do_call i c => snd (run_call rt (PInstance i) c s)
  | do_zeros n => snd (np_zeros n s)
  | do_baseline a => snd (run_numpy_addition a s)
  | do_with_weld a => snd (run_numpy_addition_with_weld rt a s)
  end.

Definition session (rt : Runtime) (cs : list command) : state :=
  fold_left (fun s c => exec rt c s) cs initial_state.

(** No instance has an attribute of its own, and once an instance exists the
    class attribute [weldobj] refers to a WeldObject in the store. *)
Definition wrappers_ready (s : state) : Prop :=
  Forall (fun d => d = ∅) (instances s) /\
  (instances s <> [] ->
   exists w, class_dict s !! "weldobj" = Some (PWeld w)
             /\ (w < length (weldobjs s))%nat).

(** The part of the store that [wrappers_ready] reads. *)
Definition shape (s : state) : list (gmap string pyval) * gmap string pyval * nat :=
  (instances s, class_dict s, length (weldobjs s)).

(** * Properties *)

(** ** Machine arithmetic *)

Lemma wrap_range w x : 0 < w -> - 2 ^ (w - 1) <= wrap w x < 2 ^ (w - 1).
Proof.
  intros Hw. unfold wrap.
  assert (H2 : 2 ^ w = 2 * 2 ^ (w - 1)).
  { replace w with (Z.succ (w - 1)) at 1 by lia. rewrite Z.pow_succ_r; lia. }
  assert (0 < 2 ^ (w - 1)) by (apply Z.pow_pos_nonneg; lia).
  pose proof (Z.mod_pos_bound (x + 2 ^ (w - 1)) (2 ^ w)). lia.
Qed.

Lemma wrap_id w x : 0 < w -> - 2 ^ (w - 1) <= x < 2 ^ (w - 1) -> wrap w x = x.
Proof.
  intros Hw Hx. unfold wrap.
  assert (H2 : 2 ^ w = 2 * 2 ^ (w - 1)).
  { replace w with (Z.succ (w - 1)) at 1 by lia. rewrite Z.pow_succ_r; lia. }
  rewrite Z.mod_small; lia.
Qed.

Lemma wrap_add_l w x y : wrap w (wrap w x + y) = wrap w (x + y).
Proof.
  unfold wrap. f_equal.
  replace ((x + 2 ^ (w - 1)) mod 2 ^ w - 2 ^ (w - 1) + y + 2 ^ (w - 1))
    with ((x + 2 ^ (w - 1)) mod 2 ^ w + y) by lia.
  rewrite Zplus_mod_idemp_l. f_equal. lia.
Qed.

Lemma wrap32_id x : in_int32 x -> wrap32 x = x.
Proof. intros H. apply wrap_id; [lia | exact H]. Qed.

Lemma wrap32_in_int32 x : in_int32 (wrap32 x).
Proof. apply (wrap_range 32). lia. Qed.

Lemma add_all32_wrap ns x : add_all32 ns (wrap32 x) = wrap32 (x + sumZ ns).
Proof.
  unfold add_all32. revert x. induction ns as [|n ns IH]; intros x; simpl.
  - f_equal. lia.
  - unfold wrap32 at 2. rewrite wrap_add_l. fold wrap32. rewrite IH.
    f_equal. lia.
Qed.

Lemma add_all32_cons n ns x : add_all32 (n :: ns) x = wrap32 (x + sumZ (n :: ns)).
Proof.
  unfold add_all32. simpl. fold (add_all32 ns (wrap32 (x + n))).
  rewrite add_all32_wrap. f_equal. lia.
Qed.

Lemma sum64_from l a :
  fold_left (fun acc x => wrap64 (acc + x)) l (wrap64 a) = wrap64 (a + sumZ l).
Proof.
  revert a. induction l as [|x l IH]; intros a; simpl.
  - f_equal. lia.
  - unfold wrap64 at 2. rewrite wrap_add_l. fold wrap64. rewrite IH.
    f_equal. lia.
Qed.

Lemma sum64_sumZ l : sum64 l = wrap64 (sumZ l).
Proof.
  unfold sum64. change 0 with (wrap64 0) at 1. now rewrite sum64_from.
Qed.

Lemma sumZ_map_add k l :
  sumZ (map (fun x => x + k) l) = sumZ l + k * Z.of_nat (length l).
Proof. induction l as [|x l IH]; simpl length; simpl sumZ; lia. Qed.

Lemma sumZ_repeat x n : sumZ (repeat x n) = x * Z.of_nat n.
Proof. induction n as [|n IH]; simpl repeat; simpl sumZ; lia. Qed.

Lemma xrange_ITERATIONS : sumZ (xrange ITERATIONS) = 780.
Proof. reflexivity. Qed.

(** ** Running monadic code *)

Lemma run_bind {A B : Type} (m : Py A) (f : A -> Py B) s :
  (m ≫= f) s =
  match m s with
  | (Ret a, s') => f a s'
  | (Raise e, s') => (Raise e, s')
  end.
Proof. reflexivity. Qed.

Lemma run_ret {A : Type} (a : A) s : mret (M := Py) a s = (Ret a, s).
Proof. reflexivity. Qed.

Lemma run_throw {A : Type} (e : exn) s : mthrow (M := Py) (A := A) e s = (Raise e, s).
Proof. reflexivity. Qed.

Lemma run_modify f s : modify f s = (Ret tt, f s).
Proof. reflexivity. Qed.

Lemma run_get_state s : get_state s = (Ret s, s).
Proof. reflexivity. Qed.

Lemma getattr_some s o name v :
  lookup_attr s o name = Some v -> getattr o name s = (Ret v, s).
Proof. intros H. unfold getattr. rewrite run_bind. simpl. now rewrite H. Qed.

Lemma getattr_none s o name :
  lookup_attr s o name = None -> getattr o name s = (Raise (AttributeError name), s).
Proof. intros H. unfold getattr. rewrite run_bind. simpl. now rewrite H. Qed.

Lemma deref_weld_some s w o field :
  weldobjs s !! w = Some o -> deref_weld (PWeld w) field s = (Ret o, s).
Proof. intros H. unfold deref_weld. rewrite run_bind. simpl. now rewrite H. Qed.

Lemma store_weld_some s w o field f :
  weldobjs s !! w = Some o ->
  store_weld (PWeld w) field f s = (Ret tt, put_obj w (f o) s).
Proof. intros H. unfold store_weld. rewrite run_bind. simpl. now rewrite H. Qed.

Lemma weldobjs_put s w o o' :
  weldobjs s !! w = Some o -> weldobjs (put_obj w o' s) !! w = Some o'.
Proof.
  intros H. unfold put_obj. simpl. apply list_lookup_insert_eq.
  now apply lookup_lt_Some in H.
Qed.

Lemma has_obj_put s v w o o' : has_obj s v w o -> has_obj (put_obj w o' s) v w o'.
Proof. intros [Hv Hw]. split; [exact Hv | eapply weldobjs_put; eauto]. Qed.

Lemma put_obj_twice s w o1 o2 : put_obj w o2 (put_obj w o1 s) = put_obj w o2 s.
Proof. unfold put_obj, set_weldobjs. simpl. now rewrite list_insert_insert_eq. Qed.

Lemma put_obj_same s w o : weldobjs s !! w = Some o -> put_obj w o s = s.
Proof.
  intros H. destruct s. unfold put_obj, set_weldobjs. simpl in *.
  now rewrite list_insert_id.
Qed.

Lemma format_map_layer code number :
  format "map({0}, |e| e + {1})" [code; str number] = Some (map_layer code number).
Proof. reflexivity. Qed.

Lemma format_sum_program code :
  format "result(for({0}, merger[i64,+], |b,i,e| merge(b, i64(e))))" [code]
  = Some (sum_program code).
Proof. reflexivity. Qed.

(** ** What each method does to the store *)

Lemma add_spec s v w o n :
  has_obj s v w o ->
  add v n s = (Ret v, put_obj w (with_code (map_layer (weld_code o) n) o) s).
Proof.
  intros [Hv Hw]. unfold add, get_weld_code, set_weld_code.
  rewrite run_bind, (getattr_some _ _ _ _ Hv).
  rewrite run_bind, run_bind, (deref_weld_some _ _ _ _ Hw).
  rewrite run_ret. cbv beta iota.
  rewrite run_bind, format_map_layer. unfold raise_if_none. rewrite run_ret.
  rewrite run_bind, (getattr_some _ _ _ _ Hv).
  rewrite run_bind, (store_weld_some _ _ _ _ _ Hw).
  reflexivity.
Qed.

Lemma vector_sum_spec rt s v w o :
  has_obj s v w o ->
  vector_sum rt v s =
  let ev := (sum_program (weld_code o), ScalarDecoder, WeldLong) in
  match rt_evaluate rt (running o) (arrays s) WeldLong with
  | inr r => (Ret r, log_evaluate ev (put_obj w (with_decoder _decoder o) s))
  | inl e => (Raise e, log_evaluate ev (put_obj w (running o) s))
  end.
Proof.
  intros [Hv Hw]. unfold vector_sum, get_weld_code, set_weld_code, set_decoder.
  rewrite run_bind, (getattr_some _ _ _ _ Hv).
  rewrite run_bind, run_bind, (deref_weld_some _ _ _ _ Hw), run_ret. cbv beta iota.
  rewrite run_bind, (getattr_some _ _ _ _ Hv).
  rewrite run_bind, run_bind, (deref_weld_some _ _ _ _ Hw), run_ret. cbv beta iota.
  rewrite run_bind, format_sum_program. unfold raise_if_none. rewrite run_ret.
  rewrite run_bind, (getattr_some _ _ _ _ Hv).
  rewrite run_bind, (store_weld_some _ _ _ _ _ Hw).
  pose proof (has_obj_put s v w o (with_code (sum_program (weld_code o)) o)
                (conj Hv Hw)) as [Hv1 Hw1].
  rewrite run_bind, (getattr_some _ _ _ _ Hv1).
  rewrite run_bind, (store_weld_some _ _ _ _ _ Hw1), put_obj_twice.
  fold (running o).
  assert (H2 : has_obj (put_obj w (running o) s) v w (running o))
    by (apply has_obj_put with o; split; auto).
  destruct H2 as [Hv2 Hw2].
  rewrite run_bind, (getattr_some _ _ _ _ Hv2).
  unfold evaluate.
  rewrite run_bind, run_bind, (deref_weld_some _ _ _ _ Hw2).
  rewrite run_bind, run_get_state. rewrite run_bind, run_modify.
  change (arrays (put_obj w (running o) s)) with (arrays s).
  cbv zeta.
  destruct (rt_evaluate rt (running o) (arrays s) WeldLong) as [e|r].
  - reflexivity.
  - rewrite run_ret.
    set (s2 := log_evaluate _ _).
    assert (H3 : has_obj s2 v w (running o)) by (split; assumption).
    destruct H3 as [Hv3 Hw3].
    rewrite run_bind, (getattr_some _ _ _ _ Hv3).
    rewrite run_bind, (store_weld_some _ _ _ _ _ Hw3).
    set (o4 := with_decoder _decoder (running o)).
    assert (H4 : has_obj (put_obj w o4 s2) v w o4)
      by (apply has_obj_put with (running o); split; auto).
    destruct H4 as [Hv4 Hw4].
    rewrite run_bind, (getattr_some _ _ _ _ Hv4).
    rewrite run_bind, (store_weld_some _ _ _ _ _ Hw4), put_obj_twice.
    rewrite run_ret. subst s2.
    unfold put_obj, set_weldobjs, log_evaluate. simpl.
    rewrite list_insert_insert_eq. reflexivity.
Qed.

Lemma setattr_class s name v :
  setattr PClass name v s = (Ret tt, set_class_dict (fun d => <[name := v]> d) s).
Proof. reflexivity. Qed.

Lemma WeldObject_new_spec s enc dec :
  WeldObject_new enc dec s =
  (Ret (PWeld (length (weldobjs s))),
   set_weldobjs (fun h => h ++ [mkWeldObject enc dec "" ∅]) s).
Proof. reflexivity. Qed.

Lemma insert_at_end {A : Type} (l : list A) (x y : A) :
  <[length l := y]> (l ++ [x]) = l ++ [y].
Proof.
  rewrite insert_app_r_alt by lia. now rewrite Nat.sub_diag.
Qed.

Lemma member_init : member "__init__" = Some classmethod.
Proof. reflexivity. Qed.

Lemma HelloWeldVector_spec rt s vector :
  HelloWeldVector rt vector s =
  match rt_update rt (var_num s) fresh_obj vector (WeldVec WeldInt) with
  | inr (name, o') =>
      (Ret (PInstance (length (instances s))),
       constructed s vector (with_code name o') (S (var_num s)))
  | inl e => (Raise e, constructed s vector fresh_obj (var_num s))
  end.
Proof.
  unfold HelloWeldVector.
  rewrite run_bind, run_get_state, run_bind, run_modify, run_bind.
  unfold call_method. rewrite member_init. cbv iota beta. simpl bound_self.
  unfold __init__.
  rewrite run_bind, setattr_class, run_bind, WeldObject_new_spec.
  rewrite run_bind, setattr_class.
  set (s1 := set_class_dict _ _).
  assert (Hv : lookup_attr s1 PClass "weldobj" = Some (PWeld (length (weldobjs s)))).
  { subst s1. simpl. apply lookup_insert_eq. }
  assert (Hw : weldobjs s1 !! length (weldobjs s) = Some fresh_obj).
  { subst s1. simpl. now apply list_lookup_middle. }
  rewrite run_bind, (getattr_some _ _ _ _ Hv).
  unfold update.
  rewrite run_bind, run_bind, (deref_weld_some _ _ _ _ Hw).
  rewrite run_bind, run_get_state.
  change (var_num s1) with (var_num s).
  destruct (rt_update rt (var_num s) fresh_obj vector (WeldVec WeldInt)) as [e|[name o']].
  - rewrite run_throw. subst s1. unfold constructed. simpl. reflexivity.
  - rewrite run_bind, (store_weld_some _ _ _ _ _ Hw).
    rewrite run_bind, run_modify, run_ret.
    pose proof (has_obj_put s1 PClass _ _ o' (conj Hv Hw)) as [Hv1 Hw1].
    unfold set_weld_code.
    set (s2 := set_var_num S _).
    assert (H2 : has_obj s2 PClass (length (weldobjs s)) o') by exact (conj Hv1 Hw1).
    destruct H2 as [Hv2 Hw2].
    rewrite run_bind, (getattr_some _ _ _ _ Hv2).
    rewrite (store_weld_some _ _ _ _ _ Hw2), run_ret. subst s2.
    subst s1. unfold constructed, put_obj, set_weldobjs, set_var_num, set_class_dict,
      set_instances. simpl.
    now rewrite list_insert_insert_eq, insert_at_end.
Qed.

(** ** Frame rules *)

Section Frame.

Context {B : Type} (g : state -> B).

Lemma preserves_ret {A : Type} (a : A) : preserves g (mret a).
Proof. intros s. reflexivity. Qed.

Lemma preserves_throw {A : Type} (e : exn) : preserves g (mthrow (A := A) e).
Proof. intros s. reflexivity. Qed.

Lemma preserves_bind {A C : Type} (m : Py A) (f : A -> Py C) :
  preserves g m -> (forall a, preserves g (f a)) -> preserves g (m ≫= f).
Proof.
  intros Hm Hf s. rewrite run_bind. specialize (Hm s).
  destruct (m s) as [[a|e] s1]; simpl in *.
  - now rewrite Hf.
  - exact Hm.
Qed.

Lemma preserves_raise_if_none {A : Type} e (o : option A) :
  preserves g (raise_if_none e o).
Proof. destruct o; intros s; reflexivity. Qed.

Lemma preserves_getattr o name : preserves g (getattr o name).
Proof.
  intros s. unfold getattr. rewrite run_bind, run_get_state.
  apply preserves_raise_if_none.
Qed.

Lemma preserves_deref_weld w field : preserves g (deref_weld w field).
Proof.
  intros s. unfold deref_weld. rewrite run_bind, run_get_state.
  destruct w; try reflexivity. destruct (weldobjs s !! l); reflexivity.
Qed.

Hypothesis g_weldobjs : forall f s, g (set_weldobjs f s) = g s.

Lemma preserves_store_weld w field f : preserves g (store_weld w field f).
Proof.
  intros s. unfold store_weld. rewrite run_bind, run_get_state.
  destruct w; try reflexivity. destruct (weldobjs s !! l); [|reflexivity].
  rewrite run_modify. apply g_weldobjs.
Qed.

Lemma preserves_for_each {A C : Type} (xs : list C) (body : A -> C -> Py A) acc :
  (forall a x, preserves g (body a x)) -> preserves g (for_each xs body acc).
Proof.
  intros Hb. revert acc. induction xs as [|x xs IH]; intros acc; simpl.
  - apply preserves_ret.
  - apply preserves_bind; auto.
Qed.

Lemma preserves_add self n : preserves g (add self n).
Proof.
  unfold add, get_weld_code, set_weld_code. cbv zeta.
  repeat first [ apply preserves_getattr
               | apply preserves_deref_weld | apply preserves_store_weld
               | apply preserves_raise_if_none | apply preserves_ret
               | apply preserves_bind; [|intros ?] ].
Qed.

Hypothesis g_log : forall ev s, g (log_evaluate ev s) = g s.

Lemma preserves_evaluate rt w restype : preserves g (evaluate rt w restype).
Proof.
  unfold evaluate. apply preserves_bind; [apply preserves_deref_weld|].
  intros o s. rewrite run_bind, run_get_state, run_bind, run_modify.
  destruct (rt_evaluate rt o (arrays s) restype); simpl; apply g_log.
Qed.

Lemma preserves_vector_sum rt self : preserves g (vector_sum rt self).
Proof.
  unfold vector_sum, get_weld_code, set_weld_code, set_decoder. cbv zeta.
  repeat first [ apply preserves_getattr | apply preserves_evaluate
               | apply preserves_deref_weld | apply preserves_store_weld
               | apply preserves_raise_if_none | apply preserves_ret
               | apply preserves_bind; [|intros ?] ].
Qed.

End Frame.

Lemma iadd_instance i n : iadd (PInstance i) n = add (PInstance i) n.
Proof. reflexivity. Qed.

Lemma preserves_np_iadd_evaluated a i : preserves evaluated (np_iadd a i).
Proof.
  intros s. unfold np_iadd. rewrite run_bind, run_get_state.
  destruct a; try reflexivity. destruct (arrays s !! l); reflexivity.
Qed.

Lemma preserves_iadd_evaluated a n : preserves evaluated (iadd a n).
Proof.
  destruct a; try apply preserves_throw.
  - apply preserves_np_iadd_evaluated.
  - apply (preserves_add evaluated). reflexivity.
Qed.

Lemma preserves_run_call_arrays rt v c : preserves arrays (run_call rt v c).
Proof.
  destruct c as [n|n|]; simpl.
  - apply (preserves_add arrays). reflexivity.
  - apply (preserves_add arrays). reflexivity.
  - apply (preserves_vector_sum arrays); reflexivity.
Qed.

Lemma preserves_run_calls_arrays rt v cs : preserves arrays (run_calls rt v cs).
Proof.
  unfold run_calls. apply preserves_for_each. intros [] c.
  apply preserves_bind; [apply preserves_run_call_arrays | intros ?; apply preserves_ret].
Qed.

(** ** The log of evaluations *)

Lemma logs_nothing {A : Type} (m : Py A) : preserves evaluated m -> logs_at_most 0 m.
Proof. intros H s. exists []. rewrite H, app_nil_r. split; [reflexivity | simpl; lia]. Qed.

Lemma logs_at_most_bind {A C : Type} k1 k2 (m : Py A) (f : A -> Py C) :
  logs_at_most k1 m -> (forall a, logs_at_most k2 (f a)) ->
  logs_at_most (k1 + k2) (m ≫= f).
Proof.
  intros Hm Hf s. rewrite run_bind. destruct (Hm s) as (evs1 & E1 & L1).
  destruct (m s) as [[a|e] s1]; simpl in *.
  - destruct (Hf a s1) as (evs2 & E2 & L2).
    exists (evs1 ++ evs2). rewrite E2, E1, <- app_assoc, length_app. split; [reflexivity | lia].
  - exists evs1. split; [exact E1 | lia].
Qed.

Lemma logs_at_most_evaluate rt w restype : logs_at_most 1 (evaluate rt w restype).
Proof.
  intros s. unfold evaluate. rewrite run_bind.
  pose proof (preserves_deref_weld evaluated w "evaluate" s) as Hd.
  destruct (deref_weld w "evaluate" s) as [[o|e] s1]; simpl in Hd.
  - rewrite run_bind, run_get_state, run_bind, run_modify.
    exists [(weld_code o, decoder o, restype)].
    destruct (rt_evaluate rt o (arrays s1) restype); simpl; rewrite Hd; split; auto.
  - exists []. simpl. rewrite Hd, app_nil_r. split; [reflexivity | lia].
Qed.

Ltac frame :=
  repeat first
    [ apply preserves_getattr | apply preserves_deref_weld
    | apply preserves_raise_if_none | apply preserves_ret | apply preserves_throw
    | apply preserves_store_weld; intros; reflexivity
    | apply preserves_bind; [|intros ?] ].

Lemma logs_at_most_quiet_then {A C : Type} k (m : Py A) (f : A -> Py C) :
  preserves evaluated m -> (forall a, logs_at_most k (f a)) -> logs_at_most k (m ≫= f).
Proof. intros Hm Hf. apply (logs_at_most_bind 0 k); [now apply logs_nothing | exact Hf]. Qed.

Lemma logs_at_most_then_quiet {A C : Type} k (m : Py A) (f : A -> Py C) :
  logs_at_most k m -> (forall a, preserves evaluated (f a)) -> logs_at_most k (m ≫= f).
Proof.
  intros Hm Hf. replace k with (k + 0)%nat by lia.
  apply logs_at_most_bind; [exact Hm | intros a; apply logs_nothing, Hf].
Qed.

Lemma logs_at_most_vector_sum rt self : logs_at_most 1 (vector_sum rt self).
Proof.
  unfold vector_sum, get_weld_code, set_weld_code, set_decoder. cbv zeta.
  do 10 (apply logs_at_most_quiet_then; [solve [frame] | intros ?]).
  apply logs_at_most_then_quiet; [apply logs_at_most_evaluate | intros ?; frame].
Qed.

Lemma logs_at_most_run_call rt v c :
  logs_at_most (count_vector_sum [c]) (run_call rt v c).
Proof.
  destruct c as [n|n|]; simpl.
  - apply logs_nothing, (preserves_add evaluated). reflexivity.
  - apply logs_nothing, (preserves_add evaluated). reflexivity.
  - apply logs_at_most_vector_sum.
Qed.

Lemma count_vector_sum_cons c cs :
  count_vector_sum (c :: cs) = (count_vector_sum [c] + count_vector_sum cs)%nat.
Proof. destruct c; reflexivity. Qed.

Lemma logs_at_most_run_calls rt v cs :
  logs_at_most (count_vector_sum cs) (run_calls rt v cs).
Proof.
  unfold run_calls. set (body := fun _ c => _). generalize tt.
  induction cs as [|c cs IH]; intros u.
  - apply logs_nothing, preserves_ret.
  - rewrite count_vector_sum_cons. simpl for_each.
    apply logs_at_most_bind; [|intros ?; apply IH].
    apply logs_at_most_then_quiet; [apply logs_at_most_run_call | intros ?; apply preserves_ret].
Qed.

(** ** Sequences of [add] *)

Lemma with_code_same o : with_code (weld_code o) o = o.
Proof. now destruct o. Qed.

Lemma adds_spec ns : forall s v w o,
  has_obj s v w o ->
  for_each ns add v s = (Ret v, put_obj w (with_code (nested (weld_code o) ns) o) s).
Proof.
  induction ns as [|n ns IH]; intros s v w o H.
  - simpl. rewrite run_ret, with_code_same, put_obj_same; [reflexivity | apply H].
  - simpl for_each. rewrite run_bind, (add_spec _ _ _ _ _ H).
    rewrite (IH _ _ _ _ (has_obj_put _ _ _ _ _ H)), put_obj_twice. reflexivity.
Qed.

Lemma for_each_ext {A C : Type} (xs : list C) (f g : A -> C -> Py A) (P : A -> Prop) :
  (forall a x s, P a -> f a x s = g a x s) ->
  (forall a x s b s', P a -> g a x s = (Ret b, s') -> P b) ->
  forall a s, P a -> for_each xs f a s = for_each xs g a s.
Proof.
  intros Hfg HP. induction xs as [|x xs IH]; intros a s Ha; [reflexivity|].
  simpl. rewrite !run_bind, Hfg by exact Ha.
  destruct (g a x s) as [[b|e] s'] eqn:E; [|reflexivity].
  apply IH. eapply HP; eauto.
Qed.

Lemma add_returns_self v n s b s' : add v n s = (Ret b, s') -> b = v.
Proof.
  unfold add, get_weld_code, set_weld_code. cbv zeta. intros H.
  repeat (rewrite run_bind in H;
          match type of H with
          | context [match ?m ?st with _ => _ end] =>
              destruct (m st) as [[?|?] ?]; [|discriminate]
          end).
  rewrite run_ret in H. congruence.
Qed.

Lemma iadds_spec ns s i w o :
  has_obj s (PInstance i) w o ->
  for_each ns iadd (PInstance i) s
  = (Ret (PInstance i), put_obj w (with_code (nested (weld_code o) ns) o) s).
Proof.
  intros H. rewrite <- (adds_spec ns _ _ _ _ H).
  apply (for_each_ext ns iadd add (fun a => a = PInstance i)); [| |reflexivity].
  - intros a x s0 ->. reflexivity.
  - intros a x s0 b s' -> Hb. now apply add_returns_self in Hb.
Qed.

(** ** The baseline *)

Lemma np_iadd_spec s l data i :
  arrays s !! l = Some data ->
  np_iadd (PArray l) i s
  = (Ret (PArray l), set_arrays (fun h => <[l := map (fun x => wrap32 (x + i)) data]> h) s).
Proof. intros H. unfold np_iadd. rewrite run_bind, run_get_state. now rewrite H. Qed.

Lemma np_iadds_spec ns : forall s l data,
  arrays s !! l = Some data ->
  for_each ns iadd (PArray l) s
  = (Ret (PArray l), set_arrays (fun h => <[l := map (add_all32 ns) data]> h) s).
Proof.
  induction ns as [|n ns IH]; intros s l data H.
  - simpl. rewrite run_ret. f_equal. destruct s. unfold set_arrays. simpl in *.
    rewrite map_id. now rewrite list_insert_id.
  - simpl for_each. rewrite run_bind. simpl iadd. rewrite (np_iadd_spec _ _ _ _ H).
    erewrite IH.
    2:{ simpl. apply list_lookup_insert_eq. now apply lookup_lt_Some in H. }
    f_equal. unfold set_arrays. simpl. rewrite list_insert_insert_eq, map_map. reflexivity.
Qed.

Lemma np_sum_spec s l data :
  arrays s !! l = Some data -> np_sum (PArray l) s = (Ret (PInt (sum64 data)), s).
Proof. intros H. unfold np_sum. rewrite run_bind, run_get_state. now rewrite H. Qed.

Lemma add_all32_ITERATIONS x : add_all32 (xrange ITERATIONS) x = wrap32 (x + 780).
Proof.
  change (xrange ITERATIONS) with (0 :: List.tl (xrange ITERATIONS)).
  rewrite add_all32_cons. reflexivity.
Qed.

Lemma run_numpy_addition_spec s l data :
  arrays s !! l = Some data ->
  run_numpy_addition (PArray l) s
  = (Ret (PInt (sum64 (map (fun x => wrap32 (x + 780)) data))),
     set_arrays (fun h => <[l := map (fun x => wrap32 (x + 780)) data]> h) s).
Proof.
  intros H. unfold run_numpy_addition.
  rewrite run_bind, (np_iadds_spec _ _ _ _ H).
  rewrite (map_ext _ _ add_all32_ITERATIONS).
  apply np_sum_spec. simpl. apply list_lookup_insert_eq. now apply lookup_lt_Some in H.
Qed.

(** ** Construction *)

Lemma constructed_has_obj s vector o n :
  has_obj (constructed s vector o n) (PInstance (length (instances s)))
          (length (weldobjs s)) o.
Proof.
  split.
  - unfold lookup_attr, constructed. simpl.
    rewrite list_lookup_middle by reflexivity.
    rewrite lookup_empty. apply lookup_insert_eq.
  - unfold constructed. simpl. now apply list_lookup_middle.
Qed.

Lemma code_of_has_obj s v w o : has_obj s v w o -> code_of s v = Some (weld_code o).
Proof. intros [Hv Hw]. unfold code_of, weldobj_of. now rewrite Hv, Hw. Qed.

Lemma decoder_of_has_obj s v w o : has_obj s v w o -> decoder_of s v = Some (decoder o).
Proof. intros [Hv Hw]. unfold decoder_of, weldobj_of. now rewrite Hv, Hw. Qed.

Lemma weldobj_of_has_obj s v w o : has_obj s v w o -> weldobj_of s v = Some o.
Proof. intros [Hv Hw]. unfold weldobj_of. now rewrite Hv, Hw. Qed.

Lemma nested_snoc N ns n : nested N (ns ++ [n]) = map_layer (nested N ns) n.
Proof. unfold nested. now rewrite fold_left_app. Qed.

(** C3. Starting from a freshly constructed HelloWeldVector whose WeldObject
    assigned the name [N], the program is [N], and after the calls [add(n1)],
    ..., [add(nk)] it is the nested text
    [map(...map(map(N, |e| e + n1), |e| e + n2)..., |e| e + nk)]: every [add]
    wraps the program in exactly one more [map] layer. *)
Theorem add_builds_nested_maps rt s vector N o' ns :
  rt_update rt (var_num s) fresh_obj vector (WeldVec WeldInt) = inr (N, o') ->
  exists v s0 s',
    HelloWeldVector rt vector s = (Ret v, s0) /\
    code_of s0 v = Some N /\
    for_each ns add v s0 = (Ret v, s') /\
    code_of s' v = Some (nested N ns) /\
    forall n, code_of (snd (add v n s')) v = Some (map_layer (nested N ns) n).
Proof.
  intros Hu.
  pose proof (constructed_has_obj s vector (with_code N o') (S (var_num s))) as H0.
  pose proof (has_obj_put _ _ _ _ (with_code (nested N ns) (with_code N o')) H0) as H1.
  exists (PInstance (length (instances s))),
         (constructed s vector (with_code N o') (S (var_num s))),
         (put_obj (length (weldobjs s)) (with_code (nested N ns) (with_code N o'))
            (constructed s vector (with_code N o') (S (var_num s)))).
  split; [|split; [|split; [|split]]].
  - rewrite HelloWeldVector_spec, Hu. reflexivity.
  - now rewrite (code_of_has_obj _ _ _ _ H0).
  - exact (adds_spec ns _ _ _ _ H0).
  - now rewrite (code_of_has_obj _ _ _ _ H1).
  - intros n. simpl weld_code.
    rewrite (add_spec _ _ _ _ n H1). simpl snd.
    now rewrite (code_of_has_obj _ _ _ _ (has_obj_put _ _ _ _ _ H1)).
Qed.

Lemma add_builds_nested_maps_witness :
  exists v s0 s',
    HelloWeldVector weld_runtime (PArray 0) example_store = (Ret v, s0) /\
    code_of s0 v = Some "_inp0" /\
    for_each [5; -2] add v s0 = (Ret v, s') /\
    code_of s' v = Some "map(map(_inp0, |e| e + 5), |e| e + -2)" /\
    forall n, code_of (snd (add v n s')) v
              = Some (map_layer "map(map(_inp0, |e| e + 5), |e| e + -2)" n).
Proof.
  apply (add_builds_nested_maps weld_runtime example_store (PArray 0) "_inp0"
           (mkWeldObject _encoder _decoder "" (<["_inp0" := PArray 0]> ∅)) [5; -2]).
  reflexivity.
Defined.

Lemma example_has_obj : has_obj example_wrapped (PInstance 0) 0 example_obj.
Proof. split; reflexivity. Qed.

(** C2. Calling [add], or [+=] through [__iadd__], never invokes the runtime's
    [evaluate]: a sequence of calls on a wrapper logs at most one evaluation
    per [vector_sum] call in it, so none at all when it consists of [add]
    calls; and [vector_sum] does evaluate, once, the accumulated program
    wrapped in the summing loop. *)
Theorem evaluation_only_in_vector_sum rt s v w o :
  has_obj s v w o ->
  (forall ns, evaluated (snd (for_each ns add v s)) = evaluated s) /\
  (forall ns, evaluated (snd (for_each ns __iadd__ v s)) = evaluated s) /\
  (forall ns, evaluated (snd (for_each ns iadd v s)) = evaluated s) /\
  (forall cs, exists evs,
      evaluated (snd (run_calls rt v cs s)) = evaluated s ++ evs /\
      (length evs <= count_vector_sum cs)%nat) /\
  evaluated (snd (vector_sum rt v s))
  = evaluated s ++ [(sum_program (weld_code o), ScalarDecoder, WeldLong)].
Proof.
  intros H. repeat split.
  - intros ns. apply preserves_for_each. intros a n.
    apply (preserves_add evaluated). reflexivity.
  - intros ns. apply preserves_for_each. intros a n.
    apply (preserves_add evaluated). reflexivity.
  - intros ns. apply preserves_for_each. intros a n. apply preserves_iadd_evaluated.
  - intros cs. apply logs_at_most_run_calls.
  - rewrite (vector_sum_spec rt _ _ _ _ H). cbv zeta.
    destruct (rt_evaluate rt (running o) (arrays s) WeldLong); reflexivity.
Qed.

Lemma evaluation_only_in_vector_sum_witness :
  (forall ns, evaluated (snd (for_each ns add (PInstance 0) example_wrapped)) = []) /\
  (forall ns, evaluated (snd (for_each ns __iadd__ (PInstance 0) example_wrapped)) = []) /\
  (forall ns, evaluated (snd (for_each ns iadd (PInstance 0) example_wrapped)) = []) /\
  (forall cs, exists evs,
      evaluated (snd (run_calls weld_runtime (PInstance 0) cs example_wrapped)) = [] ++ evs /\
      (length evs <= count_vector_sum cs)%nat) /\
  evaluated (snd (vector_sum weld_runtime (PInstance 0) example_wrapped))
  = [] ++ [(sum_program "_inp0", ScalarDecoder, WeldLong)].
Proof.
  exact (evaluation_only_in_vector_sum weld_runtime example_wrapped (PInstance 0) 0
           example_obj example_has_obj).
Defined.

(** ** [vector_sum] *)

Lemma vector_sum_returns_has_obj rt s v r s' :
  vector_sum rt v s = (Ret r, s') -> exists w o, has_obj s v w o.
Proof.
  unfold vector_sum. cbv zeta. rewrite run_bind. intros H.
  destruct (lookup_attr s v "weldobj") as [x|] eqn:Hv.
  2:{ rewrite (getattr_none _ _ _ Hv) in H. discriminate. }
  rewrite (getattr_some _ _ _ _ Hv) in H.
  rewrite run_bind in H. unfold get_weld_code at 1 in H. rewrite run_bind in H.
  destruct x as [| | | |l| |]; try discriminate.
  destruct (weldobjs s !! l) as [o|] eqn:Hw.
  - exists l, o. now split.
  - unfold deref_weld in H. rewrite run_bind, run_get_state, Hw in H. discriminate.
Qed.

(** C4. When a call of [vector_sum] on a wrapper returns, the program of the
    wrapper is what it was before the call and its decoder is [_decoder]:
    a later [add] continues from the same program. *)
Theorem vector_sum_restores_program rt s v r s' :
  vector_sum rt v s = (Ret r, s') ->
  exists code,
    code_of s v = Some code /\
    code_of s' v = Some code /\
    decoder_of s' v = Some _decoder /\
    forall n, code_of (snd (add v n s')) v = Some (map_layer code n).
Proof.
  intros Hr. destruct (vector_sum_returns_has_obj _ _ _ _ _ Hr) as (w & o & H).
  rewrite (vector_sum_spec rt _ _ _ _ H) in Hr. cbv zeta in Hr.
  destruct (rt_evaluate rt (running o) (arrays s) WeldLong) as [e|r']; [discriminate|].
  injection Hr as _ <-.
  assert (H' : has_obj (log_evaluate (sum_program (weld_code o), ScalarDecoder, WeldLong)
                          (put_obj w (with_decoder _decoder o) s)) v w
                       (with_decoder _decoder o)).
  { exact (has_obj_put _ _ _ _ (with_decoder _decoder o) H). }
  exists (weld_code o). repeat split.
  - exact (code_of_has_obj _ _ _ _ H).
  - exact (code_of_has_obj _ _ _ _ H').
  - exact (decoder_of_has_obj _ _ _ _ H').
  - intros n. rewrite (add_spec _ _ _ _ n H'). simpl snd.
    exact (code_of_has_obj _ _ _ _ (has_obj_put _ _ _ _ _ H')).
Qed.

Lemma vector_sum_restores_program_witness :
  let s' := snd (vector_sum weld_runtime (PInstance 0) example_wrapped) in
  exists code,
    code_of example_wrapped (PInstance 0) = Some code /\
    code_of s' (PInstance 0) = Some code /\
    decoder_of s' (PInstance 0) = Some _decoder /\
    forall n, code_of (snd (add (PInstance 0) n s')) (PInstance 0) = Some (map_layer code n).
Proof.
  apply (vector_sum_restores_program weld_runtime example_wrapped (PInstance 0) (PInt 6)).
  vm_compute. reflexivity.
Defined.

(** C7. On a wrapper, [add] returns the very object it was called on, and
    [__iadd__] is [add]: the statement [a += i] rebinds [a] to the same
    wrapper. *)
Theorem add_returns_self_object s i w o n :
  has_obj s (PInstance i) w o ->
  fst (add (PInstance i) n s) = Ret (PInstance i) /\
  __iadd__ (PInstance i) n s = add (PInstance i) n s /\
  fst (__iadd__ (PInstance i) n s) = Ret (PInstance i) /\
  fst (iadd (PInstance i) n s) = Ret (PInstance i).
Proof.
  intros H. rewrite iadd_instance.
  change (__iadd__ (PInstance i) n) with (add (PInstance i) n).
  rewrite (add_spec _ _ _ _ n H). repeat split.
Qed.

Lemma add_returns_self_object_witness :
  fst (add (PInstance 0) 7 example_wrapped) = Ret (PInstance 0) /\
  __iadd__ (PInstance 0) 7 example_wrapped = add (PInstance 0) 7 example_wrapped /\
  fst (__iadd__ (PInstance 0) 7 example_wrapped) = Ret (PInstance 0) /\
  fst (iadd (PInstance 0) 7 example_wrapped) = Ret (PInstance 0).
Proof.
  exact (add_returns_self_object example_wrapped 0 0 example_obj 7 example_has_obj).
Defined.

(** C6. [__init__] is installed as a classmethod, so constructing a wrapper
    binds [self] to the class: [vector] and [weldobj] are attributes of the
    class, the instance dictionary stays empty, and a second construction
    overwrites the vector, the WeldObject and the accumulated program seen
    through the first instance. *)
Theorem init_sets_class_attributes rt s v1 v2 N1 o1 N2 o2 ns :
  rt_update rt (var_num s) fresh_obj v1 (WeldVec WeldInt) = inr (N1, o1) ->
  rt_update rt (S (var_num s)) fresh_obj v2 (WeldVec WeldInt) = inr (N2, o2) ->
  let a := PInstance (length (instances s)) in
  let b := PInstance (S (length (instances s))) in
  let s1 := snd (HelloWeldVector rt v1 s) in
  let s1' := snd (for_each ns add a s1) in
  let s2 := snd (HelloWeldVector rt v2 s1') in
  member "__init__" = Some classmethod /\
  bound_self classmethod a = PClass /\
  fst (HelloWeldVector rt v1 s) = Ret a /\
  instances s1 !! length (instances s) = Some ∅ /\
  class_dict s1 !! "vector" = Some v1 /\
  class_dict s1 !! "weldobj" = Some (PWeld (length (weldobjs s))) /\
  code_of s1' a = Some (nested N1 ns) /\
  fst (HelloWeldVector rt v2 s1') = Ret b /\
  a <> b /\
  lookup_attr s2 a "vector" = Some v2 /\
  lookup_attr s2 a "weldobj" = Some (PWeld (S (length (weldobjs s)))) /\
  lookup_attr s2 b "weldobj" = lookup_attr s2 a "weldobj" /\
  code_of s2 a = Some N2.
Proof.
  intros Hu1 Hu2. cbv zeta.
  pose proof (constructed_has_obj s v1 (with_code N1 o1) (S (var_num s))) as H1.
  rewrite HelloWeldVector_spec, Hu1. simpl fst. simpl snd.
  rewrite (adds_spec ns _ _ _ _ H1). simpl snd.
  set (a := PInstance (length (instances s))) in *.
  set (b := PInstance (S (length (instances s)))).
  set (s1 := constructed s v1 (with_code N1 o1) (S (var_num s))) in *.
  set (s1' := put_obj _ _ s1).
  assert (Hlen : length (instances s1') = S (length (instances s))).
  { simpl. rewrite length_app. simpl. lia. }
  assert (Hlenw : length (weldobjs s1') = S (length (weldobjs s))).
  { simpl. rewrite length_insert, length_app. simpl. lia. }
  rewrite HelloWeldVector_spec.
  change (var_num s1') with (S (var_num s)). rewrite Hu2, Hlen. simpl fst. simpl snd.
  fold b.
  pose proof (constructed_has_obj s1' v2 (with_code N2 o2) (S (S (var_num s)))) as H2.
  rewrite Hlen, Hlenw in H2. fold b in H2.
  set (s2 := constructed s1' v2 (with_code N2 o2) (S (S (var_num s)))) in *.
  assert (Ha2 : forall name, lookup_attr s2 a name = class_dict s2 !! name).
  { intros name. unfold lookup_attr, a. simpl.
    rewrite lookup_app_l by (rewrite length_app; simpl; lia).
    rewrite list_lookup_middle by reflexivity.
    now rewrite lookup_empty. }
  assert (Hb2 : forall name, lookup_attr s2 b name = class_dict s2 !! name).
  { intros name. unfold lookup_attr, b. simpl.
    rewrite list_lookup_middle by (rewrite length_app; simpl; lia).
    now rewrite lookup_empty. }
  repeat split.
  - simpl. now apply list_lookup_middle.
  - simpl. rewrite lookup_insert_ne by discriminate. apply lookup_insert_eq.
  - simpl. apply lookup_insert_eq.
  - unfold s1'. now rewrite (code_of_has_obj _ _ _ _ (has_obj_put _ _ _ _ _ H1)).
  - unfold a, b. intros [=]. lia.
  - rewrite Ha2. simpl. rewrite lookup_insert_ne by discriminate. apply lookup_insert_eq.
  - rewrite Ha2. simpl. rewrite length_insert, length_app. simpl.
    replace (length (weldobjs s) + 1)%nat with (S (length (weldobjs s))) by lia.
    apply lookup_insert_eq.
  - now rewrite Ha2, Hb2.
  - destruct H2 as [Hv2 Hw2]. unfold code_of, weldobj_of.
    rewrite Ha2, <- Hb2, Hv2, Hw2. reflexivity.
Qed.

Lemma init_sets_class_attributes_witness :
  let s := example_store in
  let a := PInstance 0 in
  let b := PInstance 1 in
  let s1 := snd (HelloWeldVector weld_runtime (PArray 0) s) in
  let s1' := snd (for_each [4; 5] add a s1) in
  let s2 := snd (HelloWeldVector weld_runtime (PArray 0) s1') in
  member "__init__" = Some classmethod /\
  bound_self classmethod a = PClass /\
  fst (HelloWeldVector weld_runtime (PArray 0) s) = Ret a /\
  instances s1 !! 0%nat = Some ∅ /\
  class_dict s1 !! "vector" = Some (PArray 0) /\
  class_dict s1 !! "weldobj" = Some (PWeld 0) /\
  code_of s1' a = Some (nested "_inp0" [4; 5]) /\
  fst (HelloWeldVector weld_runtime (PArray 0) s1') = Ret b /\
  a <> b /\
  lookup_attr s2 a "vector" = Some (PArray 0) /\
  lookup_attr s2 a "weldobj" = Some (PWeld 1) /\
  lookup_attr s2 b "weldobj" = lookup_attr s2 a "weldobj" /\
  code_of s2 a = Some "_inp1".
Proof.
  exact (init_sets_class_attributes weld_runtime example_store (PArray 0) (PArray 0)
           "_inp0" (mkWeldObject _encoder _decoder "" (<["_inp0" := PArray 0]> ∅))
           "_inp1" (mkWeldObject _encoder _decoder "" (<["_inp1" := PArray 0]> ∅))
           [4; 5] eq_refl eq_refl).
Defined.

(** ** Errors of the runtime *)

Lemma update_error_propagates rt s vector e :
  rt_update rt (var_num s) fresh_obj vector (WeldVec WeldInt) = inl e ->
  fst (HelloWeldVector rt vector s) = Raise e /\
  fst (run_numpy_addition_with_weld rt vector s) = Raise e.
Proof.
  intros H. unfold run_numpy_addition_with_weld. rewrite run_bind.
  rewrite HelloWeldVector_spec, H. split; reflexivity.
Qed.

Lemma run_with_weld_spec rt s vector N o' :
  rt_update rt (var_num s) fresh_obj vector (WeldVec WeldInt) = inr (N, o') ->
  run_numpy_addition_with_weld rt vector s
  = vector_sum rt (PInstance (length (instances s)))
      (put_obj (length (weldobjs s))
         (with_code (nested N (xrange ITERATIONS)) (with_code N o'))
         (constructed s vector (with_code N o') (S (var_num s)))).
Proof.
  intros H. unfold run_numpy_addition_with_weld.
  rewrite run_bind, HelloWeldVector_spec, H.
  pose proof (constructed_has_obj s vector (with_code N o') (S (var_num s))) as H0.
  rewrite run_bind, (iadds_spec _ _ _ _ _ H0). reflexivity.
Qed.

Lemma vector_sum_raises rt s v w o e :
  has_obj s v w o ->
  rt_evaluate rt (running o) (arrays s) WeldLong = inl e ->
  vector_sum rt v s
  = (Raise e, log_evaluate (sum_program (weld_code o), ScalarDecoder, WeldLong)
                (put_obj w (running o) s)).
Proof. intros H He. rewrite (vector_sum_spec rt _ _ _ _ H). cbv zeta. now rewrite He. Qed.

(** C9. Nothing in the notebook handles exceptions: when the runtime's
    [evaluate] raises during [vector_sum], the same exception leaves
    [vector_sum]; the program was evaluated once (no retry), and the wrapper is
    left as it was at the call (nothing is cleaned up). *)
Theorem evaluate_error_propagates rt s v w o e :
  has_obj s v w o ->
  rt_evaluate rt (running o) (arrays s) WeldLong = inl e ->
  fst (vector_sum rt v s) = Raise e /\
  fst (call_method v "vector_sum" (vector_sum rt) s) = Raise e /\
  evaluated (snd (vector_sum rt v s))
  = evaluated s ++ [(sum_program (weld_code o), ScalarDecoder, WeldLong)] /\
  weldobj_of (snd (vector_sum rt v s)) v = Some (running o).
Proof.
  intros H He.
  change (call_method v "vector_sum" (vector_sum rt)) with (vector_sum rt v).
  rewrite (vector_sum_raises rt _ _ _ _ e H He). repeat split.
  simpl snd. apply weldobj_of_has_obj with w.
  exact (has_obj_put _ _ _ _ (running o) H).
Qed.

Lemma evaluate_error_propagates_witness :
  let rt := broken_runtime (WeldError "no such library") in
  fst (vector_sum rt (PInstance 0) example_wrapped) = Raise (WeldError "no such library") /\
  fst (call_method (PInstance 0) "vector_sum" (vector_sum rt) example_wrapped)
  = Raise (WeldError "no such library") /\
  evaluated (snd (vector_sum rt (PInstance 0) example_wrapped))
  = [] ++ [(sum_program "_inp0", ScalarDecoder, WeldLong)] /\
  weldobj_of (snd (vector_sum rt (PInstance 0) example_wrapped)) (PInstance 0)
  = Some (running example_obj).
Proof.
  exact (evaluate_error_propagates (broken_runtime (WeldError "no such library"))
           example_wrapped (PInstance 0) 0 example_obj (WeldError "no such library")
           example_has_obj eq_refl).
Defined.

Lemma evaluate_error_leaves_routine rt s vector N o' e :
  rt_update rt (var_num s) fresh_obj vector (WeldVec WeldInt) = inr (N, o') ->
  rt_evaluate rt (running (with_code (nested N (xrange ITERATIONS)) (with_code N o')))
    (arrays s) WeldLong = inl e ->
  fst (run_numpy_addition_with_weld rt vector s) = Raise e.
Proof.
  intros Hu He. rewrite (run_with_weld_spec _ _ _ _ _ Hu).
  pose proof (constructed_has_obj s vector (with_code N o') (S (var_num s))) as H0.
  apply (has_obj_put _ _ _ _ (with_code (nested N (xrange ITERATIONS)) (with_code N o')))
    in H0.
  now rewrite (vector_sum_raises rt _ _ _ _ e H0 He).
Qed.

(** ** The arrays *)

Lemma preserves_HelloWeldVector_arrays rt vector :
  preserves arrays (HelloWeldVector rt vector).
Proof.
  intros s. rewrite HelloWeldVector_spec.
  destruct (rt_update rt (var_num s) fresh_obj vector (WeldVec WeldInt)) as [e|[N o']];
    reflexivity.
Qed.

Lemma wrap32_add_780_neq x : wrap32 (x + 780) <> x.
Proof.
  unfold wrap32, wrap. intros H.
  assert (Hm : (x + 780 + 2 ^ (32 - 1)) mod 2 ^ 32 = x + 2 ^ (32 - 1)) by lia.
  pose proof (Z.mod_pos_bound (x + 780 + 2 ^ (32 - 1)) (2 ^ 32) ltac:(lia)) as Hb.
  pose proof (Z.div_mod (x + 780 + 2 ^ (32 - 1)) (2 ^ 32) ltac:(lia)) as Hd.
  rewrite Hm in Hd.
  assert (780 = 2 ^ 32 * ((x + 780 + 2 ^ (32 - 1)) / 2 ^ 32)) by lia.
  lia.
Qed.

(** C8. Neither [add] nor [vector_sum] writes to the wrapped array: building a
    wrapper over an array and running any sequence of [add], [+=] and
    [vector_sum] calls on it leaves every array as it was, whereas the
    baseline routine replaces each element of its array. *)
Theorem wrapper_leaves_array_unchanged rt s l data cs :
  arrays s !! l = Some data ->
  data <> [] ->
  arrays (snd ((v ← HelloWeldVector rt (PArray l); run_calls rt v cs) s)) = arrays s /\
  arrays (snd (run_calls rt (PInstance (length (instances s))) cs
                 (snd (HelloWeldVector rt (PArray l) s)))) !! l = Some data /\
  arrays (snd (run_numpy_addition (PArray l) s)) !! l
  = Some (map (fun x => wrap32 (x + 780)) data) /\
  map (fun x => wrap32 (x + 780)) data <> data.
Proof.
  intros H Hne. repeat split.
  - apply preserves_bind; [apply preserves_HelloWeldVector_arrays|].
    intros v. apply preserves_run_calls_arrays.
  - rewrite preserves_run_calls_arrays, preserves_HelloWeldVector_arrays. exact H.
  - rewrite (run_numpy_addition_spec _ _ _ H). simpl.
    apply list_lookup_insert_eq. now apply lookup_lt_Some in H.
  - destruct data as [|x data]; [congruence|]. simpl. intros [= Hx _].
    now apply wrap32_add_780_neq in Hx.
Qed.

Lemma wrapper_leaves_array_unchanged_witness :
  let cs := [call_add 3; call_vector_sum; call_iadd 4; call_vector_sum] in
  arrays (snd ((v ← HelloWeldVector weld_runtime (PArray 0); run_calls weld_runtime v cs)
                 example_store)) = [[1; 2; 3]] /\
  arrays (snd (run_calls weld_runtime (PInstance 0) cs
                 (snd (HelloWeldVector weld_runtime (PArray 0) example_store)))) !! 0%nat
  = Some [1; 2; 3] /\
  arrays (snd (run_numpy_addition (PArray 0) example_store)) !! 0%nat
  = Some (map (fun x => wrap32 (x + 780)) [1; 2; 3]) /\
  map (fun x => wrap32 (x + 780)) [1; 2; 3] <> [1; 2; 3].
Proof.
  apply (wrapper_leaves_array_unchanged weld_runtime example_store 0 [1; 2; 3]).
  - reflexivity.
  - discriminate.
Defined.

(** ** The baseline on arrays of zeros *)

Lemma np_zeros_spec n s :
  np_zeros n s = (Ret (PArray (length (arrays s))),
                  set_arrays (fun h => h ++ [repeat 0 n]) s).
Proof. reflexivity. Qed.

Lemma map_repeat {A C : Type} (f : A -> C) x n : map f (repeat x n) = repeat (f x) n.
Proof. induction n as [|n IH]; simpl; [reflexivity | now rewrite IH]. Qed.

Lemma sum64_zeros n :
  sum64 (map (fun x => wrap32 (x + 780)) (repeat 0 n)) = wrap64 (780 * Z.of_nat n).
Proof. now rewrite map_repeat, sum64_sumZ, sumZ_repeat. Qed.

Lemma SIZE_value : Z.of_nat (Z.to_nat SIZE) = 536870912.
Proof. rewrite Z2Nat.id; [reflexivity | discriminate]. Qed.

Lemma run_numpy_addition_zeros n s :
  (a ← np_zeros n; run_numpy_addition a) s
  = (Ret (PInt (wrap64 (780 * Z.of_nat n))),
     set_arrays (fun h => h ++ [repeat 780 n]) s).
Proof.
  rewrite run_bind, np_zeros_spec.
  erewrite run_numpy_addition_spec by (simpl; now apply list_lookup_middle).
  rewrite sum64_zeros. f_equal. unfold set_arrays. simpl.
  now rewrite insert_at_end, map_repeat.
Qed.

(** C5. [run_numpy_addition] updates its array in place: afterwards every
    element is its original value plus 780 (that is 0 + 1 + ... + 39) in
    [int32] arithmetic, and the result is the sum of the updated elements; on
    an array of [SIZE] zeros the result is 418759311360. *)
Theorem run_numpy_addition_in_place s l data :
  arrays s !! l = Some data ->
  sumZ (xrange ITERATIONS) = 780 /\
  fst (run_numpy_addition (PArray l) s)
  = Ret (PInt (sum64 (map (fun x => wrap32 (x + 780)) data))) /\
  arrays (snd (run_numpy_addition (PArray l) s)) !! l
  = Some (map (fun x => wrap32 (x + 780)) data) /\
  (forall j, j <> l ->
     arrays (snd (run_numpy_addition (PArray l) s)) !! j = arrays s !! j) /\
  fst ((a ← np_zeros (Z.to_nat SIZE); run_numpy_addition a) s) = Ret (PInt 418759311360).
Proof.
  intros H. rewrite (run_numpy_addition_spec _ _ _ H). repeat split.
  - simpl. apply list_lookup_insert_eq. now apply lookup_lt_Some in H.
  - intros j Hj. simpl. now apply list_lookup_insert_ne.
  - rewrite run_numpy_addition_zeros, SIZE_value. reflexivity.
Qed.

Lemma run_numpy_addition_in_place_witness :
  sumZ (xrange ITERATIONS) = 780 /\
  fst (run_numpy_addition (PArray 0) example_store)
  = Ret (PInt (sum64 (map (fun x => wrap32 (x + 780)) [1; 2; 3]))) /\
  arrays (snd (run_numpy_addition (PArray 0) example_store)) !! 0%nat
  = Some (map (fun x => wrap32 (x + 780)) [1; 2; 3]) /\
  (forall j, j <> 0%nat ->
     arrays (snd (run_numpy_addition (PArray 0) example_store)) !! j
     = arrays example_store !! j) /\
  fst ((a ← np_zeros (Z.to_nat SIZE); run_numpy_addition a) example_store)
  = Ret (PInt 418759311360).
Proof.
  apply (run_numpy_addition_in_place example_store 0 [1; 2; 3]). reflexivity.
Defined.

(** ** Reading the generated programs: the lexer *)

Lemma append_cons c (s1 s2 : string) : String c s1 +:+ s2 = String c (s1 +:+ s2).
Proof. reflexivity. Qed.

Lemma append_nil (s : string) : "" +:+ s = s.
Proof. reflexivity. Qed.

Lemma append_assoc (s1 s2 s3 : string) : (s1 +:+ s2) +:+ s3 = s1 +:+ (s2 +:+ s3).
Proof.
  induction s1 as [|c s1 IH]; [reflexivity|].
  now rewrite !append_cons, IH.
Qed.

Lemma append_empty_r (s : string) : s +:+ "" = s.
Proof. induction s as [|c s IH]; [reflexivity | now rewrite append_cons, IH]. Qed.

Lemma all_chars_app p s1 s2 :
  all_chars p (s1 +:+ s2) = all_chars p s1 && all_chars p s2.
Proof.
  induction s1 as [|c s1 IH]; [reflexivity|].
  rewrite append_cons. simpl. rewrite IH. now rewrite andb_assoc.
Qed.

Lemma all_chars_impl (p q : ascii -> bool) s :
  (forall c, p c = true -> q c = true) -> all_chars p s = true -> all_chars q s = true.
Proof.
  intros Hpq. induction s as [|c s IH]; simpl; [reflexivity|].
  intros [Hc Hs]%andb_prop. rewrite (Hpq _ Hc), IH by exact Hs. reflexivity.
Qed.

Lemma is_digit_is_word c : Weld.is_digit c = true -> Weld.is_word c = true.
Proof. unfold Weld.is_digit, Weld.is_word. intros ->. reflexivity. Qed.

Lemma lex_word_run N : forall word rest,
  all_chars Weld.is_word N = true ->
  Weld.lex word (N +:+ rest) = Weld.lex (word +:+ N) rest.
Proof.
  induction N as [|c N IH]; intros word rest H.
  - now rewrite append_nil, append_empty_r.
  - simpl in H. apply andb_prop in H as [Hc HN]. rewrite append_cons. simpl. rewrite Hc.
    rewrite IH by exact HN. now rewrite append_assoc.
Qed.

Lemma lex_flush word rest :
  starts_delim rest ->
  Weld.lex word rest
  = (w ← Weld.flush word; ts ← Weld.lex "" rest; Some (w ++ ts)).
Proof.
  destruct rest as [|c rest]; simpl; intros H.
  - destruct (Weld.flush word); simpl; [now rewrite app_nil_r | reflexivity].
  - rewrite H. destruct (Weld.flush word) as [w|]; simpl; [|reflexivity].
    destruct (Weld.punct c) as [p|]; simpl; [|reflexivity].
    destruct (Weld.lex "" rest); reflexivity.
Qed.

(** Decimal digits. *)

Lemma string_of_uint_digits d : all_chars Weld.is_digit (NilEmpty.string_of_uint d) = true.
Proof. induction d; simpl; auto. Qed.

Lemma str_nonneg n :
  0 <= n ->
  exists c s, str n = String c s /\ Weld.is_digit c = true /\
              all_chars Weld.is_digit (str n) = true /\
              Weld.flush (str n) = Some [Weld.TNum n].
Proof.
  intros Hn. unfold str.
  assert (Hd : exists d, Z.to_int n = Decimal.Pos d /\ d <> Decimal.Nil /\ Z.of_uint d = n).
  { destruct n as [|p|p]; [| |lia].
    - exists (Decimal.D0 Decimal.Nil). repeat split. discriminate.
    - exists (Pos.to_uint p). repeat split.
      + intros E. pose proof (DecimalPos.Unsigned.of_to p) as Hp. rewrite E in Hp. discriminate.
      + unfold Z.of_uint. now rewrite DecimalPos.Unsigned.of_to. }
  destruct Hd as (d & -> & Hnil & Hval). simpl NilZero.string_of_int.
  assert (Hs : NilZero.string_of_uint d = NilEmpty.string_of_uint d)
    by (destruct d; [congruence | reflexivity..]).
  pose proof (string_of_uint_digits d) as Hall.
  pose proof (NilZero.usu d Hnil) as Husu.
  rewrite Hs in *.
  destruct (NilEmpty.string_of_uint d) as [|c s] eqn:E.
  - destruct d; simpl in E; congruence.
  - exists c, s. simpl in Hall. apply andb_prop in Hall as [Hc Hrest].
    repeat split; auto.
    + simpl. now rewrite Hc, Hrest.
    + unfold Weld.flush. rewrite Hc, Husu, Hval. reflexivity.
Qed.

Lemma lex_number n rest rts :
  0 <= n -> starts_delim rest -> Weld.lex "" rest = Some rts ->
  Weld.lex "" (str n +:+ rest) = Some (Weld.TNum n :: rts).
Proof.
  intros Hn Hd Hr. destruct (str_nonneg n Hn) as (c & s & E & Hc & Hall & Hf).
  rewrite lex_word_run by (eapply all_chars_impl; [apply is_digit_is_word | exact Hall]).
  rewrite append_nil, (lex_flush _ _ Hd), Hf, Hr. reflexivity.
Qed.

Lemma lex_name N rest rts :
  valid_name N = true -> starts_delim rest -> Weld.lex "" rest = Some rts ->
  Weld.lex "" (N +:+ rest) = Some (Weld.TIdent N :: rts).
Proof.
  intros HN Hd Hr. destruct N as [|c N]; [discriminate|].
  unfold valid_name in HN. apply andb_prop in HN as [Hc Hall].
  rewrite lex_word_run by exact Hall.
  rewrite append_nil, (lex_flush _ _ Hd), Hr. simpl Weld.flush.
  apply negb_true_iff in Hc. rewrite Hc. reflexivity.
Qed.

Ltac lex_prefix :=
  repeat rewrite append_cons; rewrite append_nil; simpl;
  match goal with |- context [Weld.lex "" ?X] => destruct (Weld.lex "" X) end;
  reflexivity.

Lemma lex_open_map X :
  Weld.lex "" ("map(" +:+ X)
  = (ts ← Weld.lex "" X; Some ([Weld.TIdent "map"; Weld.TLParen] ++ ts)).
Proof. lex_prefix. Qed.

Lemma lex_lambda X :
  Weld.lex "" (", |e| e + " +:+ X)
  = (ts ← Weld.lex "" X;
     Some ([Weld.TComma; Weld.TBar; Weld.TIdent "e"; Weld.TBar; Weld.TIdent "e";
            Weld.TPlus] ++ ts)).
Proof. lex_prefix. Qed.

Lemma lex_close X :
  Weld.lex "" (")" +:+ X) = (ts ← Weld.lex "" X; Some ([Weld.TRParen] ++ ts)).
Proof. lex_prefix. Qed.

Lemma lex_open_sum X :
  Weld.lex "" ("result(for(" +:+ X)
  = (ts ← Weld.lex "" X;
     Some ([Weld.TIdent "result"; Weld.TLParen; Weld.TIdent "for"; Weld.TLParen] ++ ts)).
Proof. lex_prefix. Qed.

Lemma lex_close_sum :
  Weld.lex "" ", merger[i64,+], |b,i,e| merge(b, i64(e))))"
  = Some [Weld.TComma; Weld.TIdent "merger"; Weld.TLBracket; Weld.TIdent "i64";
      Weld.TComma; Weld.TPlus; Weld.TRBracket; Weld.TComma; Weld.TBar;
      Weld.TIdent "b"; Weld.TComma; Weld.TIdent "i"; Weld.TComma;
      Weld.TIdent "e"; Weld.TBar; Weld.TIdent "merge"; Weld.TLParen;
      Weld.TIdent "b"; Weld.TComma; Weld.TIdent "i64"; Weld.TLParen;
      Weld.TIdent "e"; Weld.TRParen; Weld.TRParen; Weld.TRParen; Weld.TRParen].
Proof. reflexivity. Qed.

Lemma lexes_to_name N : valid_name N = true -> lexes_to N [Weld.TIdent N].
Proof. intros H rest rts Hd Hr. now apply lex_name. Qed.

Lemma lexes_to_map_layer code ts n :
  0 <= n -> lexes_to code ts -> lexes_to (map_layer code n) (map_layer_tokens ts n).
Proof.
  intros Hn Hcode rest rts _ Hr. unfold map_layer, map_layer_tokens.
  rewrite !append_assoc, lex_open_map.
  erewrite Hcode; [| reflexivity |].
  2:{ rewrite lex_lambda. erewrite lex_number; [| exact Hn | reflexivity |].
      2:{ rewrite lex_close, Hr. reflexivity. }
      reflexivity. }
  simpl. rewrite <- !app_assoc. reflexivity.
Qed.

Lemma lexes_to_nested N ns :
  valid_name N = true -> Forall (fun n => 0 <= n) ns ->
  lexes_to (nested N ns) (nested_tokens N ns).
Proof.
  intros HN Hns. unfold nested, nested_tokens.
  assert (G : forall code ts, lexes_to code ts ->
              lexes_to (fold_left map_layer ns code) (fold_left map_layer_tokens ns ts)).
  { induction Hns as [|n ns Hn Hns IH]; intros code ts Hc; [exact Hc|].
    simpl. apply IH. now apply lexes_to_map_layer. }
  apply G, lexes_to_name, HN.
Qed.

Lemma lex_sum_program code ts :
  lexes_to code ts -> Weld.lex "" (sum_program code) = Some (sum_tokens ts).
Proof.
  intros Hc. unfold sum_program, sum_tokens.
  rewrite lex_open_sum. erewrite Hc; [reflexivity | reflexivity | apply lex_close_sum].
Qed.

(** ** Reading the generated programs: the parser *)

Lemma parse_operand_map f ts :
  Weld.parse_operand (S f) (Weld.TIdent "map" :: Weld.TLParen :: ts)
  = ('(v, r) ← Weld.parse_expr f ts;
     r ← Weld.expect Weld.TComma r; r ← Weld.expect Weld.TBar r;
     '(x, r) ← Weld.expect_ident r;
     r ← Weld.expect Weld.TBar r;
     '(body, r) ← Weld.parse_expr f r;
     r ← Weld.expect Weld.TRParen r;
     Some (Weld.Map v x body, r)).
Proof. reflexivity. Qed.

Lemma parse_operand_result f ts :
  Weld.parse_operand (S f) (Weld.TIdent "result" :: Weld.TLParen :: ts)
  = ('(b, r) ← Weld.parse_expr f ts;
     r ← Weld.expect Weld.TRParen r;
     Some (Weld.Result b, r)).
Proof. reflexivity. Qed.

Lemma parse_operand_for f ts :
  Weld.parse_operand (S f) (Weld.TIdent "for" :: Weld.TLParen :: ts)
  = ('(v, r) ← Weld.parse_expr f ts;
     r ← Weld.expect Weld.TComma r;
     '(builder, r) ← Weld.parse_expr f r;
     r ← Weld.expect Weld.TComma r; r ← Weld.expect Weld.TBar r;
     '(b, r) ← Weld.expect_ident r;
     r ← Weld.expect Weld.TComma r;
     '(i, r) ← Weld.expect_ident r;
     r ← Weld.expect Weld.TComma r;
     '(e, r) ← Weld.expect_ident r;
     r ← Weld.expect Weld.TBar r;
     '(body, r) ← Weld.parse_expr f r;
     r ← Weld.expect Weld.TRParen r;
     Some (Weld.For v builder b i e body, r)).
Proof. reflexivity. Qed.

Lemma parse_sum_end f lhs rest :
  ends_operand rest -> Weld.parse_sum (S f) lhs rest = Some (lhs, rest).
Proof. destruct rest as [|[] rest]; simpl; intros H; try reflexivity; contradiction. Qed.

Lemma parse_expr_unfold f ts :
  Weld.parse_expr f ts = ('(a, r) ← Weld.parse_operand f ts; Weld.parse_sum f a r).
Proof. reflexivity. Qed.

Lemma parses_to_name N : parses_to 1 [Weld.TIdent N] (Weld.Ident N).
Proof.
  intros [|f] rest Hf Hrest; [lia|].
  destruct rest as [|[] rest]; simpl in Hrest; try contradiction; reflexivity.
Qed.

Lemma parses_to_le d d' ts e : (d <= d')%nat -> parses_to d ts e -> parses_to d' ts e.
Proof. intros Hd H fuel rest Hf Hrest. apply H; [lia | exact Hrest]. Qed.

Lemma parse_lambda_body f n rest :
  in_int32b n = true ->
  Weld.parse_expr (S (S f))
    (Weld.TIdent "e" :: Weld.TPlus :: Weld.TNum n :: Weld.TRParen :: rest)
  = Some (Weld.Add (Weld.Ident "e") (Weld.I32Literal n), Weld.TRParen :: rest).
Proof. intros Hn. unfold Weld.parse_expr. simpl. now rewrite Hn. Qed.

Ltac parse_step := cbn [mbind option_bind Weld.expect Weld.expect_ident].

Lemma parses_to_map_layer d ts e n :
  in_int32b n = true -> parses_to d ts e ->
  parses_to (S (Nat.max d 2)) (map_layer_tokens ts n) (map_layer_expr e n).
Proof.
  intros Hn He fuel rest Hf Hrest.
  destruct fuel as [|[|[|f]]]; try lia.
  unfold map_layer_tokens. rewrite <- !app_assoc. simpl app.
  rewrite parse_expr_unfold, parse_operand_map.
  rewrite He by (simpl; auto; lia). parse_step.
  rewrite (parse_lambda_body _ _ _ Hn). parse_step.
  now apply parse_sum_end.
Qed.

Lemma parses_to_nested N ns :
  Forall (fun n => in_int32b n = true) ns ->
  parses_to (2 + length ns) (nested_tokens N ns) (nested_expr N ns).
Proof.
  intros Hns. unfold nested_tokens, nested_expr.
  assert (G : forall d ts e, parses_to d ts e ->
              parses_to (Nat.max d 2 + length ns)
                (fold_left map_layer_tokens ns ts) (fold_left map_layer_expr ns e)).
  { induction Hns as [|n ns Hn Hns IH]; intros d ts e He.
    - simpl. eapply parses_to_le; [|exact He]. lia.
    - simpl. eapply parses_to_le; [|apply IH, (parses_to_map_layer _ _ _ _ Hn He)]. lia. }
  eapply parses_to_le; [|apply G, parses_to_name]. simpl. lia.
Qed.

Lemma parse_merger f rest :
  Weld.parse_expr (S f)
    (Weld.TIdent "merger" :: Weld.TLBracket :: Weld.TIdent "i64" :: Weld.TComma
     :: Weld.TPlus :: Weld.TRBracket :: Weld.TComma :: rest)
  = Some (Weld.NewMerger, Weld.TComma :: rest).
Proof. reflexivity. Qed.

Lemma parse_merge_body f rest :
  Weld.parse_expr (S (S (S f)))
    (Weld.TIdent "merge" :: Weld.TLParen :: Weld.TIdent "b" :: Weld.TComma
     :: Weld.TIdent "i64" :: Weld.TLParen :: Weld.TIdent "e" :: Weld.TRParen
     :: Weld.TRParen :: Weld.TRParen :: rest)
  = Some (Weld.Merge (Weld.Ident "b") (Weld.CastI64 (Weld.Ident "e")),
          Weld.TRParen :: rest).
Proof. reflexivity. Qed.

Lemma parses_to_sum d ts e :
  parses_to d ts e -> parses_to (2 + Nat.max d 3) (sum_tokens ts) (sum_expr e).
Proof.
  intros He fuel rest Hf Hrest.
  destruct fuel as [|[|[|[|[|f]]]]]; try lia.
  unfold sum_tokens. rewrite <- !app_assoc. simpl app.
  rewrite parse_expr_unfold, parse_operand_result.
  rewrite parse_expr_unfold, parse_operand_for.
  rewrite He by (simpl; auto; lia). parse_step.
  rewrite parse_merger. parse_step.
  rewrite parse_merge_body. parse_step.
  rewrite parse_sum_end by exact I. parse_step.
  now apply parse_sum_end.
Qed.

Lemma length_nested_tokens N ns :
  length (nested_tokens N ns) = (1 + 10 * length ns)%nat.
Proof.
  unfold nested_tokens.
  assert (G : forall ts, length (fold_left map_layer_tokens ns ts)
                         = (length ts + 10 * length ns)%nat).
  { induction ns as [|n ns IH]; intros ts; simpl; [lia|].
    rewrite IH. unfold map_layer_tokens. simpl. rewrite length_app. simpl. lia. }
  now rewrite G.
Qed.

Lemma parse_sum_program N ns :
  valid_name N = true ->
  Forall (fun n => 0 <= n) ns -> Forall (fun n => in_int32b n = true) ns ->
  Weld.parse (sum_program (nested N ns)) = Some (sum_expr (nested_expr N ns)).
Proof.
  intros HN Hpos Hns. unfold Weld.parse.
  rewrite (lex_sum_program _ _ (lexes_to_nested N ns HN Hpos)). parse_step.
  pose proof (parses_to_sum _ _ _ (parses_to_nested N ns Hns)) as Hp.
  rewrite <- (app_nil_r (sum_tokens (nested_tokens N ns))) at 2.
  rewrite Hp; [reflexivity | | exact I].
  unfold sum_tokens. rewrite !length_app, length_nested_tokens. simpl. lia.
Qed.

(** ** Evaluating the generated programs *)

Lemma map_opt_total {A C : Type} (f : A -> option C) (g : A -> C) l :
  (forall x, f x = Some (g x)) -> Weld.map_opt f l = Some (map g l).
Proof.
  intros H. induction l as [|x l IH]; simpl; [reflexivity|]. now rewrite H, IH.
Qed.

Lemma iterate_total step (g : Z -> Z -> Z) l : forall idx acc,
  (forall acc idx x, step acc idx x = Some (g acc x)) ->
  Weld.iterate step idx l acc = Some (fold_left g l acc).
Proof.
  induction l as [|x l IH]; intros idx acc H; simpl; [reflexivity|].
  rewrite H. now apply IH.
Qed.

Lemma eval_map_layer rho e n l :
  Weld.eval rho e = Some (Weld.VecI32 l) ->
  Weld.eval rho (map_layer_expr e n)
  = Some (Weld.VecI32 (map (fun x => wrap32 (x + n)) l)).
Proof.
  intros He. unfold map_layer_expr. simpl. rewrite He.
  now rewrite (map_opt_total _ (fun x => wrap32 (x + n))).
Qed.

Lemma eval_nested rho N ns data :
  rho N = Some (Weld.VecI32 data) ->
  Weld.eval rho (nested_expr N ns) = Some (Weld.VecI32 (map (add_all32 ns) data)).
Proof.
  intros HN. unfold nested_expr.
  assert (G : forall e l, Weld.eval rho e = Some (Weld.VecI32 l) ->
              Weld.eval rho (fold_left map_layer_expr ns e)
              = Some (Weld.VecI32 (map (add_all32 ns) l))).
  { induction ns as [|n ns IH]; intros e l He; simpl.
    - now rewrite map_id.
    - rewrite (IH _ _ (eval_map_layer _ _ n _ He)), map_map. reflexivity. }
  now apply G.
Qed.

Lemma eval_sum rho e l :
  Weld.eval rho e = Some (Weld.VecI32 l) ->
  Weld.eval rho (sum_expr e) = Some (Weld.I64 (sum64 l)).
Proof.
  intros He. unfold sum_expr. simpl. rewrite He.
  rewrite (iterate_total _ (fun acc x => wrap64 (acc + x))) by reflexivity.
  reflexivity.
Qed.

(** The documented runtime on the program that [vector_sum] hands over. *)
Lemma weld_evaluate_sum o arrays N ns l data :
  valid_name N = true ->
  Forall (fun n => 0 <= n) ns -> Forall (fun n => in_int32b n = true) ns ->
  weld_code o = nested N ns ->
  context o !! N = Some (PArray l) ->
  arrays !! l = Some data ->
  Weld.evaluate (running o) arrays WeldLong
  = inr (PInt (sum64 (map (add_all32 ns) data))).
Proof.
  intros HN Hpos Hns Hcode Hctx Harr. unfold Weld.evaluate, running.
  simpl weld_code. simpl context. simpl decoder. rewrite Hcode.
  rewrite (parse_sum_program N ns HN Hpos Hns).
  erewrite eval_sum; [reflexivity|].
  apply eval_nested. rewrite Hctx. simpl. now rewrite Harr.
Qed.

(** ** The wrapper over the documented runtime *)

Lemma input_name_valid n : valid_name (Weld.input_name n) = true.
Proof.
  unfold Weld.input_name.
  destruct (str_nonneg (Z.of_nat n) ltac:(lia)) as (c & s & E & Hc & Hall & _).
  change (negb (Weld.is_digit "_")
          && all_chars Weld.is_word ("_inp" +:+ str (Z.of_nat n)) = true).
  rewrite all_chars_app.
  rewrite (all_chars_impl _ _ _ is_digit_is_word Hall). reflexivity.
Qed.

Lemma xrange_ITERATIONS_nonneg : Forall (fun n => 0 <= n) (xrange ITERATIONS).
Proof. apply List.Forall_forall. intros n Hn. unfold xrange in Hn.
  apply in_map_iff in Hn as (k & <- & _). lia. Qed.

Lemma xrange_ITERATIONS_int32 : Forall (fun n => in_int32b n = true) (xrange ITERATIONS).
Proof.
  apply List.Forall_forall. intros n Hn. unfold xrange in Hn.
  apply in_map_iff in Hn as (k & <- & Hk). apply in_seq in Hk.
  change (Z.to_nat ITERATIONS) with 40%nat in Hk.
  unfold in_int32b. apply andb_true_intro. split; [apply Z.leb_le | apply Z.ltb_lt]; lia.
Qed.

Lemma run_with_weld_documented s l data :
  arrays s !! l = Some data ->
  fst (run_numpy_addition_with_weld weld_runtime (PArray l) s)
  = Ret (PInt (sum64 (map (fun x => wrap32 (x + 780)) data))).
Proof.
  intros H.
  set (N := Weld.input_name (var_num s)).
  set (o' := mkWeldObject _encoder _decoder "" (<[N := PArray l]> ∅)).
  rewrite (run_with_weld_spec weld_runtime s (PArray l) N o') by reflexivity.
  set (o := with_code (nested N (xrange ITERATIONS)) (with_code N o')).
  pose proof (constructed_has_obj s (PArray l) (with_code N o') (S (var_num s))) as H0.
  apply (has_obj_put _ _ _ _ o) in H0.
  rewrite (vector_sum_spec weld_runtime _ _ _ _ H0). cbv zeta.
  change (rt_evaluate weld_runtime) with Weld.evaluate.
  rewrite (weld_evaluate_sum o _ N (xrange ITERATIONS) l data).
  - simpl fst. now rewrite (map_ext _ _ add_all32_ITERATIONS).
  - apply input_name_valid.
  - apply xrange_ITERATIONS_nonneg.
  - apply xrange_ITERATIONS_int32.
  - reflexivity.
  - apply lookup_insert_eq.
  - exact H.
Qed.

Lemma add_780_exact data :
  Forall (fun x => - 2 ^ 31 <= x <= 2 ^ 31 - 1 - 780) data ->
  sum64 (map (fun x => wrap32 (x + 780)) data)
  = wrap64 (sumZ data + 780 * Z.of_nat (length data)).
Proof.
  intros H. rewrite sum64_sumZ. f_equal. rewrite <- sumZ_map_add. f_equal.
  apply map_ext_in. intros x Hx. rewrite List.Forall_forall in H.
  apply wrap32_id. specialize (H x Hx). unfold in_int32. lia.
Qed.

Lemma fst_bind_ret {A C : Type} (m : Py A) (f : A -> C) s :
  fst ((m ≫= fun r => mret (f r)) s)
  = match fst (m s) with Ret r => Ret (f r) | Raise e => Raise e end.
Proof. rewrite run_bind. destruct (m s) as [[r|e] s']; reflexivity. Qed.

Lemma compare_zeros n s :
  fst ((a ← np_zeros n;
        result_numpy ← run_numpy_addition a;
        a ← np_zeros n;
        result_weld ← run_numpy_addition_with_weld weld_runtime a;
        mret (result_numpy, result_weld)) s)
  = Ret (PInt (wrap64 (780 * Z.of_nat n)), PInt (wrap64 (780 * Z.of_nat n))).
Proof.
  rewrite run_bind, np_zeros_spec.
  rewrite run_bind.
  erewrite run_numpy_addition_spec by (simpl; now apply list_lookup_middle).
  rewrite run_bind, np_zeros_spec.
  rewrite fst_bind_ret.
  erewrite run_with_weld_documented by (simpl; now apply list_lookup_middle).
  now rewrite sum64_zeros.
Qed.

Lemma compare_against_numpy_documented s :
  fst (compare_against_numpy weld_runtime s) = Ret (PInt 418759311360, PInt 418759311360).
Proof.
  unfold compare_against_numpy. rewrite compare_zeros, SIZE_value. reflexivity.
Qed.

(** C1, with the wrap-around of [int32] made explicit.  For every [int32]
    array, [run_numpy_addition_with_weld] over the documented runtime and
    [run_numpy_addition] on an equal copy return the same value: the [int64]
    sum of the elements after 780 was added to each in [int32] arithmetic.
    When no element exceeds [2^31 - 781] that value is
    [sum(a) + 780 * len(a)] in [int64] arithmetic, and on arrays of [SIZE]
    zeros both return 418759311360. *)
Theorem weld_agrees_with_numpy s l s2 l2 data :
  arrays s !! l = Some data ->
  arrays s2 !! l2 = Some data ->
  fst (run_numpy_addition_with_weld weld_runtime (PArray l) s)
  = fst (run_numpy_addition (PArray l2) s2) /\
  fst (run_numpy_addition (PArray l2) s2)
  = Ret (PInt (sum64 (map (fun x => wrap32 (x + 780)) data))) /\
  (Forall (fun x => - 2 ^ 31 <= x <= 2 ^ 31 - 1 - 780) data ->
   fst (run_numpy_addition (PArray l2) s2)
   = Ret (PInt (wrap64 (sumZ data + 780 * Z.of_nat (length data))))) /\
  fst (compare_against_numpy weld_runtime s)
  = Ret (PInt 418759311360, PInt 418759311360).
Proof.
  intros H H2.
  rewrite (run_with_weld_documented _ _ _ H), (run_numpy_addition_spec _ _ _ H2).
  repeat split.
  - intros Hsmall. simpl. now rewrite add_780_exact.
  - apply compare_against_numpy_documented.
Qed.

Lemma weld_agrees_with_numpy_witness :
  fst (run_numpy_addition_with_weld weld_runtime (PArray 0) example_store)
  = fst (run_numpy_addition (PArray 0) example_store) /\
  fst (run_numpy_addition (PArray 0) example_store) = Ret (PInt 2346) /\
  fst (compare_against_numpy weld_runtime example_store)
  = Ret (PInt 418759311360, PInt 418759311360).
Proof.
  destruct (weld_agrees_with_numpy example_store 0 example_store 0 [1; 2; 3]
              eq_refl eq_refl) as (Hsame & Hsum & Hexact & Hzeros).
  split; [exact Hsame | split; [|exact Hzeros]].
  rewrite Hexact; [reflexivity|].
  repeat constructor; lia.
Defined.

(** The claim as the specification states it, without the bound on the
    elements, fails on an array holding the largest [int32]: both routines
    return -2147482869, not 2147483647 + 780. *)
Lemma sum_plus_780_counterexample :
  in_int32 2147483647 /\
  fst (run_numpy_addition (PArray 0)
         (set_arrays (fun _ => [[2147483647]]) initial_state))
  = Ret (PInt (-2147482869)) /\
  fst (run_numpy_addition_with_weld weld_runtime (PArray 0)
         (set_arrays (fun _ => [[2147483647]]) initial_state))
  = Ret (PInt (-2147482869)) /\
  wrap64 (sumZ [2147483647] + 780 * Z.of_nat (length [2147483647])) = 2147484427 /\
  fst (run_numpy_addition (PArray 0)
         (set_arrays (fun _ => [[2147483647]]) initial_state))
  <> Ret (PInt (wrap64 (sumZ [2147483647] + 780 * Z.of_nat (length [2147483647])))).
Proof.
  split; [unfold in_int32; lia|].
  split; [vm_compute; reflexivity|].
  split; [vm_compute; reflexivity|].
  split; [vm_compute; reflexivity|].
  vm_compute. discriminate.
Qed.

(** * Further properties *)

(** ** The routines as a whole *)

Lemma with_weld_log rt s vector N o' :
  rt_update rt (var_num s) fresh_obj vector (WeldVec WeldInt) = inr (N, o') ->
  evaluated (snd (run_numpy_addition_with_weld rt vector s))
  = evaluated s ++ [(sum_program (nested N (xrange ITERATIONS)), ScalarDecoder, WeldLong)].
Proof.
  intros Hu. rewrite (run_with_weld_spec _ _ _ _ _ Hu).
  pose proof (constructed_has_obj s vector (with_code N o') (S (var_num s))) as H0.
  apply (has_obj_put _ _ _ _ (with_code (nested N (xrange ITERATIONS)) (with_code N o')))
    in H0.
  rewrite (vector_sum_spec rt _ _ _ _ H0). cbv zeta.
  destruct (rt_evaluate rt _ _ _); reflexivity.
Qed.

(** X1. [run_numpy_addition_with_weld] hands the runtime one program, once:
    the registered name under the forty [map] layers of the loop, inside the
    summing loop.  None of the forty [+=] evaluates anything. *)
Theorem with_weld_evaluates_once rt s vector N o' :
  rt_update rt (var_num s) fresh_obj vector (WeldVec WeldInt) = inr (N, o') ->
  evaluated (snd (run_numpy_addition_with_weld rt vector s))
  = evaluated s ++ [(sum_program (nested N (xrange ITERATIONS)), ScalarDecoder, WeldLong)]
  /\ evaluated (snd (for_each (xrange ITERATIONS) iadd
                       (PInstance (length (instances s)))
                       (snd (HelloWeldVector rt vector s))))
     = evaluated s.
Proof.
  intros Hu. split; [exact (with_weld_log rt s vector N o' Hu)|].
  rewrite (preserves_for_each evaluated) by (intros; apply preserves_iadd_evaluated).
  rewrite HelloWeldVector_spec, Hu. reflexivity.
Qed.

Lemma with_weld_evaluates_once_witness :
  evaluated (snd (run_numpy_addition_with_weld weld_runtime (PArray 0) example_store))
  = [] ++ [(sum_program (nested "_inp0" (xrange ITERATIONS)), ScalarDecoder, WeldLong)]
  /\ evaluated (snd (for_each (xrange ITERATIONS) iadd (PInstance 0)
                       (snd (HelloWeldVector weld_runtime (PArray 0) example_store))))
     = [].
Proof.
  exact (with_weld_evaluates_once weld_runtime example_store (PArray 0) "_inp0"
           (mkWeldObject _encoder _decoder "" (<["_inp0" := PArray 0]> ∅)) eq_refl).
Defined.

Lemma running_restored o : running (with_decoder _decoder o) = running o.
Proof. reflexivity. Qed.

(** X3. [vector_sum] can be repeated: when a call returns, a second call
    right after it hands the runtime the same program, decoder and arrays,
    returns the same value, and again leaves the program as it was. *)
Theorem vector_sum_repeatable rt s v r s' :
  vector_sum rt v s = (Ret r, s') ->
  exists code,
    code_of s v = Some code /\
    fst (vector_sum rt v s') = Ret r /\
    evaluated (snd (vector_sum rt v s'))
    = evaluated s ++ [(sum_program code, ScalarDecoder, WeldLong);
                      (sum_program code, ScalarDecoder, WeldLong)] /\
    code_of (snd (vector_sum rt v s')) v = Some code.
Proof.
  intros Hr. destruct (vector_sum_returns_has_obj _ _ _ _ _ Hr) as (w & o & H).
  rewrite (vector_sum_spec rt _ _ _ _ H) in Hr. cbv zeta in Hr.
  destruct (rt_evaluate rt (running o) (arrays s) WeldLong) as [e|r'] eqn:He; [discriminate|].
  injection Hr as <- <-.
  set (ev := (sum_program (weld_code o), ScalarDecoder, WeldLong)).
  assert (H' : has_obj (log_evaluate ev (put_obj w (with_decoder _decoder o) s)) v w
                       (with_decoder _decoder o)).
  { exact (has_obj_put _ _ _ _ (with_decoder _decoder o) H). }
  exists (weld_code o). split; [exact (code_of_has_obj _ _ _ _ H)|].
  rewrite (vector_sum_spec rt _ _ _ _ H'). cbv zeta.
  rewrite running_restored.
  change (arrays (log_evaluate ev (put_obj w (with_decoder _decoder o) s))) with (arrays s).
  rewrite He. simpl fst. simpl snd. repeat split.
  - simpl. now rewrite <- app_assoc.
  - rewrite (code_of_has_obj _ _ w (with_decoder _decoder (with_decoder _decoder o)));
      [reflexivity|].
    exact (has_obj_put _ _ _ _ (with_decoder _decoder (with_decoder _decoder o)) H').
Qed.

Lemma vector_sum_repeatable_witness :
  exists code,
    code_of example_wrapped (PInstance 0) = Some code /\
    fst (vector_sum weld_runtime (PInstance 0)
           (snd (vector_sum weld_runtime (PInstance 0) example_wrapped))) = Ret (PInt 6) /\
    evaluated (snd (vector_sum weld_runtime (PInstance 0)
           (snd (vector_sum weld_runtime (PInstance 0) example_wrapped))))
    = evaluated example_wrapped
      ++ [(sum_program code, ScalarDecoder, WeldLong);
          (sum_program code, ScalarDecoder, WeldLong)] /\
    code_of (snd (vector_sum weld_runtime (PInstance 0)
           (snd (vector_sum weld_runtime (PInstance 0) example_wrapped)))) (PInstance 0)
    = Some code.
Proof.
  apply (vector_sum_repeatable weld_runtime example_wrapped (PInstance 0) (PInt 6)).
  vm_compute. reflexivity.
Defined.

(** X6. The baseline routine cannot be run on a wrapper: the forty [+=] go
    through [__iadd__] and wrap the program in forty layers, then [a.sum()]
    raises [AttributeError], the class having no [sum]; nothing was
    evaluated. *)
Theorem baseline_on_wrapper_raises s i w o :
  has_obj s (PInstance i) w o ->
  run_numpy_addition (PInstance i) s
  = (Raise (AttributeError "sum"),
     put_obj w (with_code (nested (weld_code o) (xrange ITERATIONS)) o) s).
Proof.
  intros H. unfold run_numpy_addition.
  rewrite run_bind, (iadds_spec _ _ _ _ _ H). reflexivity.
Qed.

Lemma baseline_on_wrapper_raises_witness :
  run_numpy_addition (PInstance 0) example_wrapped
  = (Raise (AttributeError "sum"),
     put_obj 0 (with_code (nested "_inp0" (xrange ITERATIONS)) example_obj) example_wrapped).
Proof. exact (baseline_on_wrapper_raises example_wrapped 0 0 example_obj example_has_obj). Defined.

Lemma wrap32_twice_780 x : wrap32 (wrap32 (x + 780) + 780) = wrap32 (x + 1560).
Proof. unfold wrap32. rewrite wrap_add_l. f_equal. lia. Qed.

(** X7. The baseline routine updates its argument, so it is not repeatable:
    a second call on the same array sees the elements of the first and
    returns the sum of the elements plus 1560, in [int32] arithmetic. *)
Theorem baseline_twice_adds_twice s l data :
  arrays s !! l = Some data ->
  fst ((run_numpy_addition (PArray l);; run_numpy_addition (PArray l)) s)
  = Ret (PInt (sum64 (map (fun x => wrap32 (x + 1560)) data))) /\
  arrays (snd ((run_numpy_addition (PArray l);; run_numpy_addition (PArray l)) s)) !! l
  = Some (map (fun x => wrap32 (x + 1560)) data).
Proof.
  intros H. rewrite run_bind, (run_numpy_addition_spec _ _ _ H).
  erewrite run_numpy_addition_spec.
  2:{ simpl. apply list_lookup_insert_eq. now apply lookup_lt_Some in H. }
  rewrite map_map, (map_ext _ _ wrap32_twice_780). split; [reflexivity|].
  simpl. apply list_lookup_insert_eq. rewrite length_insert. now apply lookup_lt_Some in H.
Qed.

Lemma baseline_twice_adds_twice_witness :
  fst ((run_numpy_addition (PArray 0);; run_numpy_addition (PArray 0)) example_store)
  = Ret (PInt (sum64 (map (fun x => wrap32 (x + 1560)) [1; 2; 3]))) /\
  arrays (snd ((run_numpy_addition (PArray 0);; run_numpy_addition (PArray 0))
                 example_store)) !! 0%nat
  = Some (map (fun x => wrap32 (x + 1560)) [1; 2; 3]).
Proof. exact (baseline_twice_adds_twice example_store 0 [1; 2; 3] eq_refl). Defined.

Lemma with_weld_arrays s vector :
  arrays (snd (run_numpy_addition_with_weld weld_runtime vector s)) = arrays s.
Proof.
  rewrite (run_with_weld_spec weld_runtime s vector (Weld.input_name (var_num s))
             (mkWeldObject _encoder _decoder "" (<[Weld.input_name (var_num s) := vector]> ∅)))
    by reflexivity.
  now rewrite (preserves_vector_sum arrays).
Qed.

(** X8. [run_numpy_addition_with_weld] is repeatable over the documented
    runtime: called twice on the same array it returns the same value both
    times, the array being left as it was. *)
Theorem with_weld_repeatable s l data :
  arrays s !! l = Some data ->
  fst ((r1 ← run_numpy_addition_with_weld weld_runtime (PArray l);
        r2 ← run_numpy_addition_with_weld weld_runtime (PArray l);
        mret (r1, r2)) s)
  = Ret (PInt (sum64 (map (fun x => wrap32 (x + 780)) data)),
         PInt (sum64 (map (fun x => wrap32 (x + 780)) data))).
Proof.
  intros H. rewrite run_bind.
  pose proof (run_with_weld_documented s l data H) as H1.
  pose proof (with_weld_arrays s (PArray l)) as Ha.
  destruct (run_numpy_addition_with_weld weld_runtime (PArray l) s) as [r1 s1].
  simpl in H1, Ha. subst r1. rewrite fst_bind_ret.
  rewrite (run_with_weld_documented s1 l data) by (now rewrite Ha). reflexivity.
Qed.

Lemma with_weld_repeatable_witness :
  fst ((r1 ← run_numpy_addition_with_weld weld_runtime (PArray 0);
        r2 ← run_numpy_addition_with_weld weld_runtime (PArray 0);
        mret (r1, r2)) example_store)
  = Ret (PInt (sum64 (map (fun x => wrap32 (x + 780)) [1; 2; 3])),
         PInt (sum64 (map (fun x => wrap32 (x + 780)) [1; 2; 3]))).
Proof. exact (with_weld_repeatable example_store 0 [1; 2; 3] eq_refl). Defined.

Lemma add_all32_total ns x : in_int32 x -> add_all32 ns x = wrap32 (x + sumZ ns).
Proof. intros H. rewrite <- (wrap32_id x H) at 1. apply add_all32_wrap. Qed.

Lemma literal_range ns :
  Forall (fun n => 0 <= n < 2 ^ 31) ns ->
  Forall (fun n => 0 <= n) ns /\ Forall (fun n => in_int32b n = true) ns.
Proof.
  intros H. split; eapply Forall_impl; try exact H; simpl; intros n Hn; [lia|].
  unfold in_int32b. apply andb_true_intro. split; [apply Z.leb_le | apply Z.ltb_lt]; lia.
Qed.

(** The documented runtime on a wrapper that accumulated the additions [ns]
    over the array registered under the name [N]. *)
Lemma vector_sum_documented s v w o N ns l data :
  has_obj s v w o ->
  valid_name N = true ->
  Forall (fun n => 0 <= n < 2 ^ 31) ns ->
  weld_code o = nested N ns ->
  context o !! N = Some (PArray l) ->
  arrays s !! l = Some data ->
  fst (vector_sum weld_runtime v s) = Ret (PInt (sum64 (map (add_all32 ns) data))).
Proof.
  intros H HN Hns Hcode Hctx Harr. destruct (literal_range ns Hns) as [Hpos Hlit].
  rewrite (vector_sum_spec weld_runtime _ _ _ _ H). cbv zeta.
  change (rt_evaluate weld_runtime) with Weld.evaluate.
  now rewrite (weld_evaluate_sum o _ N ns l data HN Hpos Hlit Hcode Hctx Harr).
Qed.

(** X2. Over the documented runtime, any sequence of [add] calls with
    numbers in [0, 2^31) on a wrapper over an [int32] array is worth one
    addition of their total: [vector_sum] returns the [int64] sum of the
    elements plus that total in [int32] arithmetic, so the order of the calls
    does not matter. *)
Theorem adds_fuse_into_one s l data ns :
  arrays s !! l = Some data ->
  Forall in_int32 data ->
  Forall (fun n => 0 <= n < 2 ^ 31) ns ->
  fst ((v ← HelloWeldVector weld_runtime (PArray l);
        v ← for_each ns add v;
        vector_sum weld_runtime v) s)
  = Ret (PInt (sum64 (map (fun x => wrap32 (x + sumZ ns)) data))).
Proof.
  intros Harr Hdata Hns.
  set (N := Weld.input_name (var_num s)).
  set (o' := mkWeldObject _encoder _decoder "" (<[N := PArray l]> ∅)).
  pose proof (constructed_has_obj s (PArray l) (with_code N o') (S (var_num s))) as H0.
  rewrite run_bind, HelloWeldVector_spec.
  change (rt_update weld_runtime (var_num s) fresh_obj (PArray l) (WeldVec WeldInt))
    with (@inr exn _ (N, o')). cbv iota beta.
  rewrite run_bind, (adds_spec ns _ _ _ _ H0).
  apply (has_obj_put _ _ _ _ (with_code (nested (weld_code (with_code N o')) ns)
                                (with_code N o'))) in H0.
  rewrite (vector_sum_documented _ _ _ _ N ns l data H0).
  - simpl fst. do 3 f_equal. apply map_ext_in. intros x Hx. apply add_all32_total.
    rewrite List.Forall_forall in Hdata. now apply Hdata.
  - apply input_name_valid.
  - exact Hns.
  - reflexivity.
  - apply lookup_insert_eq.
  - exact Harr.
Qed.

Lemma adds_fuse_into_one_witness :
  fst ((v ← HelloWeldVector weld_runtime (PArray 0);
        v ← for_each [5; 7; 5] add v;
        vector_sum weld_runtime v) example_store)
  = Ret (PInt (sum64 (map (fun x => wrap32 (x + sumZ [5; 7; 5])) [1; 2; 3]))).
Proof.
  apply (adds_fuse_into_one example_store 0 [1; 2; 3] [5; 7; 5]).
  - reflexivity.
  - repeat constructor; unfold in_int32; lia.
  - repeat constructor; lia.
Defined.







(** ** Sessions *)

Lemma preserves_shape_store_weld w field f : preserves shape (store_weld w field f).
Proof.
  intros s. unfold store_weld. rewrite run_bind, run_get_state.
  destruct w; try reflexivity. destruct (weldobjs s !! l); [|reflexivity].
  rewrite run_modify. unfold shape. simpl. now rewrite length_insert.
Qed.

Ltac frame_shape :=
  repeat first
    [ apply preserves_getattr | apply preserves_deref_weld
    | apply preserves_raise_if_none | apply preserves_ret | apply preserves_throw
    | apply preserves_shape_store_weld
    | apply preserves_evaluate; intros; reflexivity
    | apply preserves_bind; [|intros ?] ].

Lemma preserves_shape_add self n : preserves shape (add self n).
Proof. unfold add, get_weld_code, set_weld_code. cbv zeta. frame_shape. Qed.

Lemma preserves_shape_vector_sum rt self : preserves shape (vector_sum rt self).
Proof.
  unfold vector_sum, get_weld_code, set_weld_code, set_decoder. cbv zeta. frame_shape.
Qed.

Lemma preserves_shape_iadd a n : preserves shape (iadd a n).
Proof.
  destruct a; try apply preserves_throw.
  - intros s. unfold iadd, np_iadd. rewrite run_bind, run_get_state.
    destruct (arrays s !! l); reflexivity.
  - apply preserves_shape_add.
Qed.

Lemma preserves_shape_np_sum a : preserves shape (np_sum a).
Proof.
  intros s. unfold np_sum. rewrite run_bind, run_get_state.
  destruct a; try reflexivity. destruct (arrays s !! l); reflexivity.
Qed.

Lemma preserves_shape_run_call rt v c : preserves shape (run_call rt v c).
Proof.
  destruct c as [n|n|]; simpl.
  - apply preserves_shape_add.
  - apply preserves_shape_add.
  - apply preserves_shape_vector_sum.
Qed.

Lemma preserves_shape_baseline a : preserves shape (run_numpy_addition a).
Proof.
  unfold run_numpy_addition. apply preserves_bind.
  - apply preserves_for_each. intros. apply preserves_shape_iadd.
  - intros. apply preserves_shape_np_sum.
Qed.

Lemma wrappers_ready_shape s s' : shape s' = shape s -> wrappers_ready s -> wrappers_ready s'.
Proof.
  unfold shape, wrappers_ready. intros [= Hi Hc Hl]. now rewrite Hi, Hc, Hl.
Qed.

Lemma wrappers_ready_constructed s vector o n :
  Forall (fun d => d = ∅) (instances s) -> wrappers_ready (constructed s vector o n).
Proof.
  intros H. split; simpl.
  - apply Forall_app. split; [exact H | repeat constructor].
  - intros _. exists (length (weldobjs s)). split; [apply lookup_insert_eq|].
    rewrite length_app. simpl. lia.
Qed.

Lemma wrappers_ready_construct rt vector s :
  wrappers_ready s -> wrappers_ready (snd (HelloWeldVector rt vector s)).
Proof.
  intros [H _]. rewrite HelloWeldVector_spec.
  destruct (rt_update rt (var_num s) fresh_obj vector (WeldVec WeldInt)) as [e|[N o']];
    now apply wrappers_ready_constructed.
Qed.

Lemma wrappers_ready_with_weld rt a s :
  wrappers_ready s -> wrappers_ready (snd (run_numpy_addition_with_weld rt a s)).
Proof.
  intros H. unfold run_numpy_addition_with_weld. rewrite run_bind.
  pose proof (wrappers_ready_construct rt a s H) as H1.
  destruct (HelloWeldVector rt a s) as [[v|e] s1]; [|exact H1]. simpl in H1.
  eapply wrappers_ready_shape; [|exact H1].
  apply (preserves_bind shape); [|intros v'; apply preserves_shape_vector_sum].
  apply preserves_for_each. intros. apply preserves_shape_iadd.
Qed.

Lemma wrappers_ready_exec rt c s : wrappers_ready s -> wrappers_ready (exec rt c s).
Proof.
  intros H. destruct c; simpl.
  - now apply wrappers_ready_construct.
  - eapply wrappers_ready_shape; [apply preserves_shape_run_call | exact H].
  - exact H.
  - eapply wrappers_ready_shape; [apply preserves_shape_baseline | exact H].
  - now apply wrappers_ready_with_weld.
Qed.

Lemma wrappers_ready_session rt cs : wrappers_ready (session rt cs).
Proof.
  unfold session.
  assert (G : forall s, wrappers_ready s ->
              wrappers_ready (fold_left (fun s c => exec rt c s) cs s)).
  { induction cs as [|c cs IH]; intros s H; [exact H|].
    simpl. apply IH. now apply wrappers_ready_exec. }
  apply G. split; [constructor | intros []; reflexivity].
Qed.

(** X5. Whatever cells were run ([HelloWeldVector], method calls on any
    wrapper, [np.zeros], the two routines; a failed cell leaves the store as
    it is), every wrapper that exists has no attribute of its own and reaches
    a live WeldObject: [add] on it returns it, and [vector_sum] on it raises
    only what the runtime's [evaluate] raises. *)
Theorem wrappers_stay_usable rt cs i n :
  (i < length (instances (session rt cs)))%nat ->
  let s := session rt cs in
  instances s !! i = Some ∅ /\
  exists w o,
    has_obj s (PInstance i) w o /\
    fst (add (PInstance i) n s) = Ret (PInstance i) /\
    fst (vector_sum rt (PInstance i) s)
    = match rt_evaluate rt (running o) (arrays s) WeldLong with
      | inr r => Ret r
      | inl e => Raise e
      end.
Proof.
  intros Hi. cbv zeta. destruct (wrappers_ready_session rt cs) as [Hempty Hcls].
  destruct (lookup_lt_is_Some_2 _ _ Hi) as [d Hd].
  assert (d = ∅) as ->.
  { rewrite Forall_forall in Hempty. apply Hempty. eapply list_elem_of_lookup_2, Hd. }
  destruct Hcls as (w & Hw & Hlt). { intros E. rewrite E in Hi. simpl in Hi. lia. }
  destruct (lookup_lt_is_Some_2 _ _ Hlt) as [o Ho].
  assert (H : has_obj (session rt cs) (PInstance i) w o).
  { split; [|exact Ho]. unfold lookup_attr. now rewrite Hd, lookup_empty. }
  split; [exact Hd|]. exists w, o. split; [exact H|]. split.
  - now rewrite (add_spec _ _ _ _ n H).
  - rewrite (vector_sum_spec rt _ _ _ _ H). cbv zeta.
    destruct (rt_evaluate rt (running o) (arrays (session rt cs)) WeldLong); reflexivity.
Qed.

Lemma wrappers_stay_usable_witness :
  let cs := [do_zeros 2; do_construct (PArray 0); do_call 0 (call_add 3);
             do_call 5 call_vector_sum; do_with_weld (PArray 0);
             do_baseline (PInstance 1); do_call 0 call_vector_sum] in
  let s := session (broken_runtime (WeldError "no such library")) cs in
  instances s !! 0%nat = Some ∅ /\
  exists w o,
    has_obj s (PInstance 0) w o /\
    fst (add (PInstance 0) 9 s) = Ret (PInstance 0) /\
    fst (vector_sum (broken_runtime (WeldError "no such library")) (PInstance 0) s)
    = match rt_evaluate (broken_runtime (WeldError "no such library"))
              (running o) (arrays s) WeldLong with
      | inr r => Ret r
      | inl e => Raise e
      end.
Proof.
  apply (wrappers_stay_usable (broken_runtime (WeldError "no such library"))
           [do_zeros 2; do_construct (PArray 0); do_call 0 (call_add 3);
            do_call 5 call_vector_sum; do_with_weld (PArray 0);
            do_baseline (PInstance 1); do_call 0 call_vector_sum] 0 9).
  vm_compute. lia.
Defined.

(** ** The data-cleaning cell *)

Lemma run_df_bind {A C : Type} (m : Df A) (f : A -> Df C) df :
  (m ≫= f) df =
  match m df with
  | (inr a, df') => f a df'
  | (inl e, df') => (inl e, df')
  end.
Proof. reflexivity. Qed.

Lemma getitem_some (df : DataFrame) key col :
  df !! key = Some col -> getitem key df = (inr col, df).
Proof. intros H. unfold getitem. now rewrite H. Qed.

Lemma zip_with_maps {A B C D : Type} (f : B -> C -> D) (g : A -> B) (h : A -> C) l :
  zip_with f (map g l) (map h l) = map (fun x => f (g x) (h x)) l.
Proof. induction l as [|x l IH]; simpl; [reflexivity | now rewrite IH]. Qed.

Lemma mask_zero_zips col :
  mask_set (str_slice 0 5 col) (eq_scalar (str_slice 0 5 col) "00000") None
  = map cleaned col.
Proof.
  unfold mask_set, eq_scalar, str_slice.
  rewrite map_map, zip_with_maps. apply map_ext. intros [s|]; reflexivity.
Qed.

Lemma run_data_cleaning_pandas_spec (df : DataFrame) col :
  df !! "Incident Zip" = Some col ->
  run_data_cleaning_pandas df
  = (inr (unique (map cleaned col)), <["Incident Zip" := map cleaned col]> df).
Proof.
  intros H. unfold run_data_cleaning_pandas.
  rewrite run_df_bind, (getitem_some _ _ _ H).
  rewrite run_df_bind. unfold setitem at 1.
  rewrite run_df_bind, (getitem_some _ _ (str_slice 0 5 col)) by apply lookup_insert_eq.
  cbv zeta.
  rewrite run_df_bind, (getitem_some _ _ (str_slice 0 5 col)) by apply lookup_insert_eq.
  rewrite run_df_bind. unfold setitem.
  rewrite run_df_bind, (getitem_some _ _ (map cleaned col))
    by (rewrite mask_zero_zips; apply lookup_insert_eq).
  now rewrite mask_zero_zips, insert_insert_eq.
Qed.

Lemma length_substring_le n s : (String.length (String.substring 0 n s) <= n)%nat.
Proof.
  revert s. induction n as [|n IH]; intros [|c s]; simpl; try lia.
  specialize (IH s). lia.
Qed.

Lemma substring_short n s :
  (String.length s <= n)%nat -> String.substring 0 n s = s.
Proof.
  revert s. induction n as [|n IH]; intros [|c s]; simpl; intros H; try reflexivity; try lia.
  rewrite IH by lia. reflexivity.
Qed.

Lemma cleaned_valid e s :
  cleaned e = Some s -> (String.length s <= 5)%nat /\ s <> "00000".
Proof.
  destruct e as [s0|]; simpl; [|discriminate].
  destruct (String.eqb_spec (String.substring 0 5 s0) "00000") as [E|E]; [discriminate|].
  intros [= <-]. split; [apply length_substring_le | exact E].
Qed.

Lemma cleaned_keeps_valid s :
  (String.length s <= 5)%nat -> s <> "00000" -> cleaned (Some s) = Some s.
Proof.
  intros Hl Hz. simpl. rewrite (substring_short 5 s Hl).
  now destruct (String.eqb_spec s "00000").
Qed.

Lemma cleaned_idem e : cleaned (cleaned e) = cleaned e.
Proof.
  destruct (cleaned e) as [s|] eqn:E; [|reflexivity].
  destruct (cleaned_valid _ _ E). now apply cleaned_keeps_valid.
Qed.

(** X10. [run_data_cleaning_pandas] cleans the column entry by entry: NaN
    stays NaN, a string whose first five characters are [00000] becomes NaN
    (also a longer one, such as [00000-0000]), any other string is cut to its
    first five characters.  The number of rows and the other columns are
    unchanged. *)
Theorem cleaning_is_entrywise (df : DataFrame) col :
  df !! "Incident Zip" = Some col ->
  let df' := snd (run_data_cleaning_pandas df) in
  df' !! "Incident Zip" = Some (map cleaned col) /\
  length (map cleaned col) = length col /\
  forall key, key <> "Incident Zip" -> df' !! key = df !! key.
Proof.
  intros H. cbv zeta. rewrite (run_data_cleaning_pandas_spec _ _ H). simpl snd.
  split; [apply lookup_insert_eq|]. split; [apply length_map|].
  intros key Hk. now apply lookup_insert_ne.
Qed.

(** X11. After [run_data_cleaning_pandas] every entry of the column is NaN
    or a string of at most five characters other than [00000]; an entry that
    already was one is unchanged. *)
Theorem cleaning_leaves_valid_zips (df : DataFrame) col :
  df !! "Incident Zip" = Some col ->
  exists col',
    snd (run_data_cleaning_pandas df) !! "Incident Zip" = Some col' /\
    Forall (fun e => match e with
                     | Some s => (String.length s <= 5)%nat /\ s <> "00000"
                     | None => True
                     end) col' /\
    Forall2 (fun e e' => match e with
                         | Some s =>
                             (String.length s <= 5)%nat -> s <> "00000" -> e' = Some s
                         | None => e' = None
                         end) col col'.
Proof.
  intros H. exists (map cleaned col).
  rewrite (run_data_cleaning_pandas_spec _ _ H). simpl snd.
  split; [apply lookup_insert_eq|]. split.
  - apply List.Forall_forall. intros e He. apply in_map_iff in He as (e0 & <- & _).
    destruct (cleaned e0) as [s|] eqn:E; [|exact I]. now apply cleaned_valid in E.
  - clear H. induction col as [|e col IH]; constructor; [|exact IH].
    destruct e as [s|]; [|reflexivity]. apply cleaned_keeps_valid.
Qed.

(** [unique] *)

Lemma elem_of_unique_from seen col e :
  e ∈ unique_from seen col <-> e ∈ col /\ e ∉ seen.
Proof.
  revert seen. induction col as [|x col IH]; intros seen; simpl.
  - rewrite elem_of_nil. tauto.
  - destruct (decide (x ∈ seen)) as [Hx|Hx].
    + rewrite IH, elem_of_cons. split; [tauto|]. intros [[->|H] Hs]; tauto.
    + rewrite !elem_of_cons, IH, elem_of_cons.
      split; [intros [->|(H & Hs)]; tauto|].
      intros [[->|H] Hs]; [tauto|].
      destruct (decide (e = x)) as [->|Hne]; tauto.
Qed.

Lemma NoDup_unique_from seen col : NoDup (unique_from seen col).
Proof.
  revert seen. induction col as [|x col IH]; intros seen; simpl; [constructor|].
  destruct (decide (x ∈ seen)); [apply IH|].
  constructor; [|apply IH]. rewrite elem_of_unique_from, elem_of_cons. tauto.
Qed.

(** Order of first appearance: what precedes the first occurrence of a value
    in the column precedes the value in the result. *)
Lemma unique_from_first col : forall seen l1 e l2,
  unique_from seen col = l1 ++ e :: l2 ->
  exists c1 c2, col = c1 ++ e :: c2 /\ (e ∉ c1) /\ forall y, y ∈ c1 -> y ∈ seen \/ y ∈ l1.
Proof.
  induction col as [|x col IH]; intros seen l1 e l2 H; simpl in H.
  - now destruct l1.
  - assert (Hin : forall s k1 z k2, unique_from s col = k1 ++ z :: k2 -> z ∉ s).
    { intros s k1 z k2 Hs. assert (He : z ∈ unique_from s col)
        by (rewrite Hs, elem_of_app, elem_of_cons; tauto).
      now apply elem_of_unique_from in He. }
    destruct (decide (x ∈ seen)) as [Hx|Hx].
    + destruct (IH _ _ _ _ H) as (c1 & c2 & -> & Hn & Hb).
      exists (x :: c1), c2. split; [reflexivity|]. split.
      * rewrite elem_of_cons. intros [->|Hc]; [|tauto]. now apply (Hin seen _ _ _ H).
      * intros y [->|Hy]%elem_of_cons; [tauto | now apply Hb].
    + destruct l1 as [|z l1]; simpl in H; injection H as <- H.
      * exists [], col. split; [reflexivity|]. split; [apply not_elem_of_nil|].
        intros y Hy. now apply elem_of_nil in Hy.
      * destruct (IH _ _ _ _ H) as (c1 & c2 & -> & Hn & Hb).
        exists (x :: c1), c2. split; [reflexivity|]. split.
        -- rewrite elem_of_cons. intros [->|Hc]; [|tauto].
           apply (Hin (x :: seen) _ _ _ H). apply elem_of_cons. tauto.
        -- intros y [->|Hy]%elem_of_cons; [right; apply elem_of_cons; tauto|].
           destruct (Hb y Hy) as [[->|Hs]%elem_of_cons|Hl].
           ++ right. apply elem_of_cons. tauto.
           ++ tauto.
           ++ right. apply elem_of_cons. tauto.
Qed.

(** X12. The result of [run_data_cleaning_pandas] lists every value of the
    cleaned column exactly once, NaN included, never [00000], in the order of
    first appearance: whatever precedes the first occurrence of a value in
    the column precedes it in the result. *)
Theorem cleaning_result_is_unique (df : DataFrame) col :
  df !! "Incident Zip" = Some col ->
  exists result col',
    fst (run_data_cleaning_pandas df) = inr result /\
    snd (run_data_cleaning_pandas df) !! "Incident Zip" = Some col' /\
    NoDup result /\
    (forall e, e ∈ result <-> e ∈ col') /\
    (Some "00000" ∉ result) /\
    (forall l1 e l2, result = l1 ++ e :: l2 ->
       exists c1 c2, col' = c1 ++ e :: c2 /\ (e ∉ c1) /\ forall y, y ∈ c1 -> y ∈ l1).
Proof.
  intros H. exists (unique (map cleaned col)), (map cleaned col).
  rewrite (run_data_cleaning_pandas_spec _ _ H). simpl.
  split; [reflexivity|]. split; [apply lookup_insert_eq|].
  split; [apply NoDup_unique_from|].
  assert (Hel : forall e, e ∈ unique (map cleaned col) <-> e ∈ map cleaned col).
  { intros e. unfold unique. rewrite elem_of_unique_from. pose proof (not_elem_of_nil e). tauto. }
  split; [exact Hel|]. split.
  - rewrite Hel. intros Hz. apply list_elem_of_In, in_map_iff in Hz as (e0 & E & _).
    now apply cleaned_valid in E.
  - intros l1 e l2 Hr. destruct (unique_from_first _ _ _ _ _ Hr) as (c1 & c2 & -> & Hn & Hb).
    exists c1, c2. split; [reflexivity|]. split; [exact Hn|].
    intros y Hy. destruct (Hb y Hy) as [Hs|Hl]; [now apply elem_of_nil in Hs | exact Hl].
Qed.

(** X13. [run_data_cleaning_pandas] is idempotent: run again on the frame
    it left, it returns the same result and leaves the same frame. *)
Theorem cleaning_is_idempotent (df : DataFrame) col :
  df !! "Incident Zip" = Some col ->
  run_data_cleaning_pandas (snd (run_data_cleaning_pandas df))
  = run_data_cleaning_pandas df.
Proof.
  intros H. rewrite (run_data_cleaning_pandas_spec _ _ H). simpl snd.
  rewrite (run_data_cleaning_pandas_spec _ (map cleaned col)) by apply lookup_insert_eq.
  rewrite map_map, (map_ext _ _ cleaned_idem), insert_insert_eq. reflexivity.
Qed.

Lemma example_frame_zip :
  example_frame !! "Incident Zip"
  = Some [Some "10027-1234"; None; Some "00000"; Some "11432";
          Some "00000-0000"; Some "10027"; Some "083"].
Proof. reflexivity. Qed.

Lemma cleaning_is_entrywise_witness :
  let df' := snd (run_data_cleaning_pandas example_frame) in
  df' !! "Incident Zip"
  = Some [Some "10027"; None; None; Some "11432"; None; Some "10027"; Some "083"] /\
  length (map cleaned [Some "10027-1234"; None; Some "00000"; Some "11432";
                       Some "00000-0000"; Some "10027"; Some "083"]) = 7%nat /\
  forall key, key <> "Incident Zip" -> df' !! key = example_frame !! key.
Proof. exact (cleaning_is_entrywise example_frame _ example_frame_zip). Defined.

Lemma cleaning_leaves_valid_zips_witness :
  exists col',
    snd (run_data_cleaning_pandas example_frame) !! "Incident Zip" = Some col' /\
    Forall (fun e => match e with
                     | Some s => (String.length s <= 5)%nat /\ s <> "00000"
                     | None => True
                     end) col' /\
    Forall2 (fun e e' => match e with
                         | Some s =>
                             (String.length s <= 5)%nat -> s <> "00000" -> e' = Some s
                         | None => e' = None
                         end)
      [Some "10027-1234"; None; Some "00000"; Some "11432";
       Some "00000-0000"; Some "10027"; Some "083"] col'.
Proof. exact (cleaning_leaves_valid_zips example_frame _ example_frame_zip). Defined.

Lemma cleaning_result_is_unique_witness :
  exists result col',
    fst (run_data_cleaning_pandas example_frame) = inr result /\
    snd (run_data_cleaning_pandas example_frame) !! "Incident Zip" = Some col' /\
    NoDup result /\
    (forall e, e ∈ result <-> e ∈ col') /\
    (Some "00000" ∉ result) /\
    (forall l1 e l2, result = l1 ++ e :: l2 ->
       exists c1 c2, col' = c1 ++ e :: c2 /\ (e ∉ c1) /\ forall y, y ∈ c1 -> y ∈ l1).
Proof. exact (cleaning_result_is_unique example_frame _ example_frame_zip). Defined.

Lemma cleaning_is_idempotent_witness :
  run_data_cleaning_pandas (snd (run_data_cleaning_pandas example_frame))
  = run_data_cleaning_pandas example_frame.
Proof. exact (cleaning_is_idempotent example_frame _ example_frame_zip). Defined.
